(** * azure-media-backend: the photo / comment workflow over two stores

    A shallow embedding of [src/blob.js] (the object-store client) and of
    the route handlers of [src/index.js] (the coordinator), together with
    the properties of the dual-store workflow proved about them.

    JavaScript strings are sequences of UTF-16 code units; the handlers run
    in a state-and-exception monad over a [World] that holds the two stores,
    the list of backend calls made so far and the console. *)

From Stdlib Require Import ZArith NArith String Ascii Decimal DecimalString DecimalN.
From stdpp Require Import base option list gmap sorting.

Open Scope Z_scope.

(** ** JavaScript strings *)

Module Js.

(** A string is the list of its UTF-16 code units. *)
Definition str := list N.

(** A literal of the source, written as a Rocq string. *)
Definition lit (s : string) : str :=
  map N_of_ascii (list_ascii_of_string s).

(** [s.startsWith(p)], the test behind [includes] and [split]. *)
Fixpoint starts_with (p s : str) : bool :=
  match p, s with
  | [], _ => true
  | _ :: _, [] => false
  | a :: p', b :: s' => N.eqb a b && starts_with p' s'
  end.

(** [s.includes(sub)]. *)
Fixpoint includes (s sub : str) : bool :=
  starts_with sub s ||
  match s with
  | [] => false
  | _ :: s' => includes s' sub
  end.

(** [s.split(sep)] for a non-empty separator: scan from the left, cut at
    each occurrence of [sep] and resume after it.  [skip] counts the code
    units of a matched separator that are still to be passed over; [cur] is
    the current piece, reversed. *)
Fixpoint split_from (sep : str) (skip : nat) (cur s : str) : list str :=
  match s with
  | [] => [rev cur]
  | c :: s' =>
      match skip with
      | S k => split_from sep k cur s'
      | O =>
          if starts_with sep s
          then rev cur :: split_from sep (length sep - 1) [] s'
          else split_from sep 0 (c :: cur) s'
      end
  end.

(** [s.split(sep)]: with the empty separator the string falls apart into
    its code units. *)
Definition split (s sep : str) : list str :=
  match sep with
  | [] => map (fun c => [c]) s
  | _ :: _ => split_from sep 0 [] s
  end.

(** [parts.pop()] as an expression: the last element, [undefined] if none. *)
Definition pop (parts : list str) : option str := last parts.

(** [s.substring(n)]. *)
Definition substring (n : nat) (s : str) : str := drop n s.

(** WhiteSpace and LineTerminator code points of ECMAScript, the ones
    [String.prototype.trim] strips. *)
Definition is_white (c : N) : bool :=
  (N.leb 9 c && N.leb c 13) || N.eqb c 32 || N.eqb c 160 || N.eqb c 5760
  || (N.leb 8192 c && N.leb c 8202) || N.eqb c 8232 || N.eqb c 8233
  || N.eqb c 8239 || N.eqb c 8287 || N.eqb c 12288 || N.eqb c 65279.

Fixpoint trim_start (s : str) : str :=
  match s with
  | [] => []
  | c :: s' => if is_white c then trim_start s' else s
  end.

(** [s.trim()]. *)
Definition trim (s : str) : str := rev (trim_start (rev (trim_start s))).

(** The decimal digits of a non-negative integer, as [`${n}`] prints it. *)
Definition decimal (n : N) : str := lit (NilZero.string_of_uint (N.to_uint n)).

(** The values a parsed JSON body can hold in a field.  A number is kept
    as an integer: the handlers only ask whether it is zero.  [Obj] stands
    for the objects and arrays, all of them truthy and none with a [trim]
    method. *)
Inductive value :=
| Undefined
| Null
| Bool (b : bool)
| Num (n : Z)
| Str (s : str)
| Obj.

(** ToBoolean: [!v] is the negation of it. *)
Definition truthy (v : value) : bool :=
  match v with
  | Undefined | Null => false
  | Bool b => b
  | Num n => negb (n =? 0)
  | Str s => match s with [] => false | _ => true end
  | Obj => true
  end.

End Js.

Arguments Js.lit : simpl never.

(** ** Rows, errors and the world the handlers run in *)

(** Modelled from the spec: the persisted schema (section 6),
    [Photos(id PK, title, caption NULL, location NULL, image_url,
    created_at DEFAULT now)].  The table definition is not part of the
    source files; [image_url] is kept nullable because the delete handler
    tests it before use. *)
Module Photo.
Record row := {
  id : Z;
  title : Js.str;
  caption : option Js.str;
  location : option Js.str;
  image_url : option Js.str;
  created_at : Z
}.
End Photo.

(** Modelled from the spec: [Comments(id PK, photo_id FK -> Photos(id) ON
    DELETE CASCADE, comment_text, created_at DEFAULT now)]. *)
Module Comment.
Record row := {
  id : Z;
  photo_id : Z;
  comment_text : Js.str;
  created_at : Z
}.
End Comment.

(** What a [catch (err)] can receive.  Only the driver's request errors
    carry the server's native error [number]. *)
Inductive JsError :=
| RequestError (number : Z) (message : Js.str)
| ConnectionError (message : Js.str)
| RestError (message : Js.str)
| Error (message : Js.str).

(** [err.number], [undefined] when the error has none. *)
Definition err_number (e : JsError) : option Z :=
  match e with
  | RequestError n _ => Some n
  | _ => None
  end.

(** [err.message]. *)
Definition err_message (e : JsError) : Js.str :=
  match e with
  | RequestError _ m | ConnectionError m | RestError m | Error m => m
  end.

(** The statements the handlers send, with their bound parameters:
    - [SelectPhotos]: SELECT * FROM Photos ORDER BY created_at DESC
    - [InsertPhoto]: INSERT INTO Photos (title, caption, location, image_url)
      OUTPUT INSERTED.* VALUES (@title, @caption, @location, @imageUrl)
    - [SelectImageUrl]: SELECT image_url FROM Photos WHERE id = @id
    - [DeletePhoto]: DELETE FROM Photos WHERE id = @id
    - [InsertComment]: INSERT INTO Comments (photo_id, comment_text)
      OUTPUT INSERTED.* VALUES (@photoId, @comment_text)
    - [SelectComments]: SELECT * FROM Comments WHERE photo_id = @photoId
      ORDER BY created_at DESC
    The route parameter is bound as [sql.Int]: a statement carries the
    integer it denotes. *)
Inductive Statement :=
| SelectPhotos
| InsertPhoto (title : Js.str) (caption location : option Js.str) (imageUrl : Js.str)
| SelectImageUrl (id : Z)
| DeletePhoto (id : Z)
| InsertComment (photoId : Z) (comment_text : Js.str)
| SelectComments (photoId : Z).

(** The calls that leave the process. *)
Inductive Call :=
| AwaitPool
| Query (q : Statement)
| Upload (blobName : Js.str) (buffer : list N) (length : nat) (blobContentType : Js.str)
| DeleteIfExists (blobName : Js.str).

Record Blob := {
  content : list N;
  contentType : Js.str
}.

(** db.js lines 17-26: the pool's promise settles once, when the process
    starts; a failed connect rejects it with the driver's connection
    error. *)
Inductive PoolPromise :=
| Connected
| ConnectFailed (message : Js.str).

(** What is fixed when the process starts, and what the outside decides.
    The functions of a [nat] are asked with the number of backend calls
    made so far. *)
Record Env := {
  (** process.env.CONTAINER_NAME *)
  env_CONTAINER_NAME : option Js.str;
  (** the client blob.js built, seen through what the code reads off it:
      the URL of the block blob client of a name,
      [getBlockBlobClient(name).url], spelled as the storage SDK spells
      it; [None] when the start-up [try] failed and [containerClient]
      stayed undefined *)
  containerClient : option (Js.str -> Js.str);
  (** db.js: the pool connected, or the promise rejected *)
  poolPromise : PoolPromise;
  (** whether a call fails (the driver refusing a bound value, the
      backend or the network failing), and with which error *)
  fault : nat -> Call -> option JsError;
  (** Date.now() *)
  now : nat -> N;
  (** Math.random().toString(36) *)
  random36 : nat -> Js.str;
  (** the requestId of an upload response *)
  requestId : nat -> Js.str;
  (** the store's clock, for [created_at DEFAULT now] *)
  db_now : nat -> Z
}.

(** blob.js line 6: [process.env.CONTAINER_NAME || 'photos']. *)
Definition CONTAINER_NAME (env : Env) : Js.str :=
  match env_CONTAINER_NAME env with
  | Some (c :: s) => c :: s
  | _ => Js.lit "photos"
  end.

Record World := {
  Photos : list Photo.row;
  Comments : list Comment.row;
  (** the next IDENTITY value of each table *)
  next_photo : Z;
  next_comment : Z;
  (** the blob container: object key to object *)
  container : gmap Js.str Blob;
  (** backend calls so far, oldest first *)
  calls : list Call;
  (** console.log / console.error lines, oldest first *)
  console : list Js.str
}.

Definition log_call (c : Call) (w : World) : World :=
  {| Photos := Photos w; Comments := Comments w; next_photo := next_photo w;
     next_comment := next_comment w; container := container w;
     calls := calls w ++ [c]; console := console w |}.

Definition log_line (l : Js.str) (w : World) : World :=
  {| Photos := Photos w; Comments := Comments w; next_photo := next_photo w;
     next_comment := next_comment w; container := container w;
     calls := calls w; console := console w ++ [l] |}.

Definition set_container (m : gmap Js.str Blob) (w : World) : World :=
  {| Photos := Photos w; Comments := Comments w; next_photo := next_photo w;
     next_comment := next_comment w; container := m;
     calls := calls w; console := console w |}.

Definition set_tables (ps : list Photo.row) (cs : list Comment.row) (w : World) : World :=
  {| Photos := ps; Comments := cs; next_photo := next_photo w;
     next_comment := next_comment w; container := container w;
     calls := calls w; console := console w |}.

Definition bump_photo (w : World) : World :=
  {| Photos := Photos w; Comments := Comments w; next_photo := next_photo w + 1;
     next_comment := next_comment w; container := container w;
     calls := calls w; console := console w |}.

Definition bump_comment (w : World) : World :=
  {| Photos := Photos w; Comments := Comments w; next_photo := next_photo w;
     next_comment := next_comment w + 1; container := container w;
     calls := calls w; console := console w |}.

(** ** The monad of an [async] function: state and exceptions *)

Inductive Result (A : Type) :=
| Ok (a : A)
| Throw (e : JsError).
Arguments Ok {A} a.
Arguments Throw {A} e.

Definition M (A : Type) : Type := World -> Result A * World.

Definition ret {A} (a : A) : M A := fun w => (Ok a, w).

Definition throw {A} (e : JsError) : M A := fun w => (Throw e, w).

Definition bind {A B} (m : M A) (k : A -> M B) : M B :=
  fun w =>
    match m w with
    | (Ok a, w') => k a w'
    | (Throw e, w') => (Throw e, w')
    end.

(** [try { body } catch (err) { handler }]. *)
Definition try_catch {A} (body : M A) (handler : JsError -> M A) : M A :=
  fun w =>
    match body w with
    | (Ok a, w') => (Ok a, w')
    | (Throw e, w') => handler e w'
    end.

Notation "'do' x <- m ; k" := (bind m (fun x => k))
  (at level 10, x name, m at level 100, k at level 200).

Definition console_log (l : Js.str) : M unit := fun w => (Ok tt, log_line l w).
Definition console_error (l : Js.str) : M unit := fun w => (Ok tt, log_line l w).

(** A call to a backend: it is recorded, then the backend either fails it,
    leaving its own state as it was, or performs it. *)
Definition backend {A} (env : Env) (c : Call) (perform : M A) : M A :=
  fun w =>
    match fault env (length (calls w)) c with
    | Some e => (Throw e, log_call c w)
    | None => perform (log_call c w)
    end.

(** [await poolPromise]. *)
Definition await_pool (env : Env) : M unit :=
  fun w =>
    match poolPromise env with
    | Connected => (Ok tt, log_call AwaitPool w)
    | ConnectFailed m => (Throw (ConnectionError m), log_call AwaitPool w)
    end.

(** ** src/blob.js: the object-store client *)

(** Lines 28-51.  The blob is named [`${Date.now()}-${random}.${extension}`];
    the URL returned is [blockBlobClient.url], the one the client gives
    the block blob of that name. *)
Definition uploadImageToBlob (env : Env) (buffer : list N) (originalName mimeType : Js.str)
  : M Js.str :=
  match containerClient env with
  | None => throw (Error (Js.lit "Blob storage client not initialized"))
  | Some blockBlobUrl =>
      fun w =>
        let n := length (calls w) in
        let extension :=
          default (Js.lit "undefined") (Js.pop (Js.split originalName (Js.lit "."))) in
        let blobName :=
          Js.decimal (now env n) ++ Js.lit "-" ++ Js.substring 7 (random36 env n)
          ++ Js.lit "." ++ extension in
        (do uploadBlobResponse <-
           backend env (Upload blobName buffer (length buffer) mimeType)
             (fun w1 =>
                (Ok (requestId env n),
                 set_container
                   (<[blobName := {| content := buffer; contentType := mimeType |}]>
                      (container w1)) w1));
         do _ <- console_log
           (Js.lit "Blob was uploaded successfully. requestId: " ++ uploadBlobResponse);
         ret (blockBlobUrl blobName)) w
  end.

(** Line 69: the separator [`/${CONTAINER_NAME}/`]; 47 is the code unit
    of the slash. *)
Definition container_segment (env : Env) : Js.str :=
  [47%N] ++ CONTAINER_NAME env ++ [47%N].

(** Lines 65-73: the blob name [deleteImageFromBlob] works out from its
    argument. *)
Definition blobName_of (env : Env) (blobNameOrUrl : Js.str) : Js.str :=
  if Js.includes blobNameOrUrl (CONTAINER_NAME env) then
    let parts := Js.split blobNameOrUrl (container_segment env) in
    if (1 <? length parts)%nat
    then default blobNameOrUrl (parts !! 1%nat)
    else blobNameOrUrl
  else blobNameOrUrl.

(** Line 77: [`Blob ${blobName} deleted successfully.`]. *)
Definition deleted_line (blobName : Js.str) : Js.str :=
  Js.lit "Blob " ++ blobName ++ Js.lit " deleted successfully.".

(** Lines 57-84. *)
Definition deleteImageFromBlob (env : Env) (blobNameOrUrl : Js.str) : M unit :=
  match containerClient env with
  | None =>
      console_error (Js.lit "Blob storage client not initialized, cannot delete blob.")
  | Some _ =>
      try_catch
        (let blobName := blobName_of env blobNameOrUrl in
         do _ <- backend env (DeleteIfExists blobName)
           (fun w1 => (Ok tt, set_container (delete blobName (container w1)) w1));
         console_log (deleted_line blobName))
        (fun error => console_error (Js.lit "Error deleting blob: " ++ err_message error))
  end.

(** ** The statements, as the relational store performs them *)

(** ORDER BY created_at DESC. *)
Definition newest_first (a b : Photo.row) : Prop :=
  Photo.created_at b <= Photo.created_at a.

Definition newest_comment_first (a b : Comment.row) : Prop :=
  Comment.created_at b <= Comment.created_at a.

#[global] Instance newest_first_dec : RelDecision newest_first.
Proof. intros a b. unfold newest_first. apply _. Defined.

#[global] Instance newest_comment_first_dec : RelDecision newest_comment_first.
Proof. intros a b. unfold newest_comment_first. apply _. Defined.

(** index.js line 27.  The ordering is the engine's; it is taken to be a
    sort of the table on [created_at], newest first. *)
Definition selectPhotos (env : Env) : M (list Photo.row) :=
  backend env (Query SelectPhotos)
    (fun w => (Ok (merge_sort newest_first (Photos w)), w)).

(** index.js lines 58-67: the row gets the next identity value and the
    store's time, and comes back as the one-row recordset of
    [OUTPUT INSERTED.*]. *)
Definition insertPhoto (env : Env) (title : Js.str) (caption location : option Js.str)
    (imageUrl : Js.str) : M (list Photo.row) :=
  backend env (Query (InsertPhoto title caption location imageUrl))
    (fun w =>
       let r := {| Photo.id := next_photo w; Photo.title := title;
                   Photo.caption := caption; Photo.location := location;
                   Photo.image_url := Some imageUrl;
                   Photo.created_at := db_now env (length (calls w)) |} in
       (Ok [r], bump_photo (set_tables (Photos w ++ [r]) (Comments w) w))).

(** index.js lines 88-90. *)
Definition selectPhotoImageUrl (env : Env) (id : Z) : M (list (option Js.str)) :=
  backend env (Query (SelectImageUrl id))
    (fun w => (Ok (Photo.image_url <$> filter (fun p => Photo.id p = id) (Photos w)), w)).

(** index.js lines 104-106; the comments of the photo go with it
    (ON DELETE CASCADE). *)
Definition deletePhoto (env : Env) (id : Z) : M unit :=
  backend env (Query (DeletePhoto id))
    (fun w =>
       (Ok tt,
        set_tables (filter (fun p => Photo.id p <> id) (Photos w))
                   (filter (fun c => Comment.photo_id c <> id) (Comments w)) w)).

(** The server's native error for a statement that conflicts with a
    constraint; [Comments.photo_id] carries the only one. *)
Definition ForeignKeyViolation : JsError :=
  RequestError 547
    (Js.lit "The INSERT statement conflicted with the FOREIGN KEY constraint.").

(** index.js lines 129-136: refused with error 547 when [photoId] is not
    the id of a photo. *)
Definition insertComment (env : Env) (photoId : Z) (comment_text : Js.str)
  : M (list Comment.row) :=
  backend env (Query (InsertComment photoId comment_text))
    (fun w =>
       if bool_decide (Exists (fun p => Photo.id p = photoId) (Photos w)) then
         let r := {| Comment.id := next_comment w; Comment.photo_id := photoId;
                     Comment.comment_text := comment_text;
                     Comment.created_at := db_now env (length (calls w)) |} in
         (Ok [r], bump_comment (set_tables (Photos w) (Comments w ++ [r]) w))
       else (Throw ForeignKeyViolation, w)).

(** index.js lines 155-157. *)
Definition selectComments (env : Env) (photoId : Z) : M (list Comment.row) :=
  backend env (Query (SelectComments photoId))
    (fun w =>
       (Ok (merge_sort newest_comment_first
              (filter (fun c => Comment.photo_id c = photoId) (Comments w))), w)).

(** ** src/index.js: the route handlers *)

(** [req.file], as multer's memory storage leaves it. *)
Record File := {
  buffer : list N;
  originalname : Js.str;
  mimetype : Js.str
}.

(** The request of POST /photos: the uploaded file and the text fields of
    the multipart form, each a string or absent. *)
Record PhotoForm := {
  file : option File;
  title : option Js.str;
  caption : option Js.str;
  location : option Js.str
}.

(** ToBoolean of a form field or of a nullable text column: absent, NULL
    and the empty string are falsy. *)
Definition present (v : option Js.str) : bool :=
  match v with
  | Some (_ :: _) => true
  | _ => false
  end.

(** [v || null]. *)
Definition or_null (v : option Js.str) : option Js.str :=
  if present v then v else None.

(** What [res.json] / [res.send] is given. *)
Inductive Body :=
| error_ (error : Js.str)
| message_ (message : Js.str)
| photos_ (recordset : list Photo.row)
| photo_ (row : option Photo.row)
| comments_ (recordset : list Comment.row)
| comment_ (row : option Comment.row).

Record Response := {
  status : Z;
  body : Body
}.

Definition respond (code : Z) (b : Body) : M Response :=
  ret {| status := code; body := b |}.

Definition error_line (label : string) (err : JsError) : Js.str :=
  Js.lit label ++ Js.lit " " ++ err_message err.

(** GET /photos, lines 24-33. *)
Definition get_photos (env : Env) : M Response :=
  try_catch
    (do _ <- await_pool env;
     do recordset <- selectPhotos env;
     respond 200 (photos_ recordset))
    (fun err =>
       do _ <- console_error (error_line "Error fetching photos:" err);
       respond 500 (error_ (Js.lit "Internal Server Error"))).

(** POST /photos, lines 38-76. *)
Definition post_photos (env : Env) (req : PhotoForm) : M Response :=
  try_catch
    (match file req with
     | None => respond 400 (error_ (Js.lit "No image file provided"))
     | Some f =>
         if negb (present (title req)) then
           respond 400 (error_ (Js.lit "Title is required"))
         else
           do imageUrl <- uploadImageToBlob env (buffer f) (originalname f) (mimetype f);
           do _ <- await_pool env;
           do recordset <-
             insertPhoto env (default [] (title req)) (or_null (caption req))
               (or_null (location req)) imageUrl;
           respond 201 (photo_ (head recordset))
     end)
    (fun err =>
       do _ <- console_error (error_line "Error uploading photo:" err);
       respond 500 (error_ (Js.lit "Failed to process request"))).

(** DELETE /photos/:id, lines 82-114.  [photoId] is the integer that the
    [sql.Int] binding makes of [req.params.id]. *)
Definition delete_photos_id (env : Env) (photoId : Z) : M Response :=
  try_catch
    (do _ <- await_pool env;
     do recordset <- selectPhotoImageUrl env photoId;
     match recordset with
     | [] => respond 404 (error_ (Js.lit "Photo not found"))
     | imageUrl :: _ =>
         do _ <- (if present imageUrl
                  then deleteImageFromBlob env (default [] imageUrl)
                  else ret tt);
         do _ <- deletePhoto env photoId;
         respond 200 (message_ (Js.lit "Photo deleted successfully"))
     end)
    (fun err =>
       do _ <- console_error (error_line "Error deleting photo:" err);
       respond 500 (error_ (Js.lit "Failed to delete photo"))).

(** POST /photos/:id/comments, lines 118-147.  [comment_text] is whatever
    the JSON body holds under that key.  The test of line 122 runs outside
    the [try]: on a truthy value that is not a string, [.trim] is not a
    function and the handler throws. *)
Definition post_photos_id_comments (env : Env) (photoId : Z) (comment_text : Js.value)
  : M Response :=
  if negb (Js.truthy comment_text) then
    respond 400 (error_ (Js.lit "Comment text cannot be empty"))
  else
    match comment_text with
    | Js.Str text =>
        match Js.trim text with
        | [] => respond 400 (error_ (Js.lit "Comment text cannot be empty"))
        | _ :: _ =>
            try_catch
              (do _ <- await_pool env;
               do recordset <- insertComment env photoId text;
               respond 201 (comment_ (head recordset)))
              (fun err =>
                 do _ <- console_error (error_line "Error adding comment:" err);
                 if bool_decide (err_number err = Some 547) then
                   respond 404 (error_ (Js.lit "Photo not found"))
                 else
                   respond 500 (error_ (Js.lit "Failed to add comment")))
        end
    | _ => throw (Error (Js.lit "comment_text.trim is not a function"))
    end.

(** GET /photos/:id/comments, lines 151-164. *)
Definition get_photos_id_comments (env : Env) (photoId : Z) : M Response :=
  try_catch
    (do _ <- await_pool env;
     do recordset <- selectComments env photoId;
     respond 200 (comments_ recordset))
    (fun err =>
       do _ <- console_error (error_line "Error fetching comments:" err);
       respond 500 (error_ (Js.lit "Internal Server Error"))).

(** ** Reading a run *)

(** The calls a run added to the trace. *)
Definition new_calls (w w' : World) : list Call := drop (length (calls w)) (calls w').

Definition is_insert_photo (c : Call) : bool :=
  match c with Query (InsertPhoto _ _ _ _) => true | _ => false end.

Definition is_insert_comment (c : Call) : bool :=
  match c with Query (InsertComment _ _) => true | _ => false end.

Definition is_delete_photo (c : Call) : bool :=
  match c with Query (DeletePhoto _) => true | _ => false end.

Definition is_upload (c : Call) : bool :=
  match c with Upload _ _ _ _ => true | _ => false end.

Definition is_blob_delete (c : Call) : bool :=
  match c with DeleteIfExists _ => true | _ => false end.

(** Calls to the object store, and to the relational store or its pool. *)
Definition is_object_store (c : Call) : bool := is_upload c || is_blob_delete c.

Definition is_metadata_store (c : Call) : bool :=
  match c with AwaitPool | Query _ => true | _ => false end.

(** Every call that satisfies [q] has a call that satisfies [p] before it. *)
Fixpoint preceded_by (p q : Call -> bool) (seen : bool) (l : list Call) : bool :=
  match l with
  | [] => true
  | c :: l' => (negb (q c) || seen) && preceded_by p q (seen || p c) l'
  end.

(** A double for the spelling of a blob name in a URL, for the examples:
    letters, digits and [- _ . ~ /] stand as they are, any other code
    unit is written [%] and two hexadecimal digits.  The examples hold no
    code unit beyond 127. *)
Definition stands (c : N) : bool :=
  (N.leb 48 c && N.leb c 57) || (N.leb 65 c && N.leb c 90) || (N.leb 97 c && N.leb c 122)
  || N.eqb c 45 || N.eqb c 95 || N.eqb c 46 || N.eqb c 126 || N.eqb c 47.

Definition hex_digit (d : N) : N :=
  if N.ltb d 10 then (48 + d)%N else (55 + d)%N.

Definition spelled (name : Js.str) : Js.str :=
  flat_map (fun c => if stands c then [c]
                     else [37%N; hex_digit (c / 16); hex_digit (c mod 16)]) name.

(** A quiet environment: both clients are up and nothing fails. *)
Definition quiet : Env :=
  {| env_CONTAINER_NAME := None;
     containerClient :=
       Some (fun name =>
               Js.lit "https://acc.blob.core.windows.net/photos/" ++ spelled name);
     poolPromise := Connected;
     fault := fun _ _ => None;
     now := fun n => (1700000000000 + N.of_nat n)%N;
     random36 := fun _ => Js.lit "0.4fzyo82mvyr";
     requestId := fun _ => Js.lit "r1";
     db_now := fun n => Z.of_nat n |}.

Definition empty_world : World :=
  {| Photos := []; Comments := []; next_photo := 1; next_comment := 1;
     container := ∅; calls := []; console := [] |}.

(** The object store refuses every upload. *)
Definition upload_refused : Env :=
  {| env_CONTAINER_NAME := env_CONTAINER_NAME quiet;
     containerClient := containerClient quiet;
     poolPromise := Connected;
     fault := fun _ c =>
       if is_upload c then Some (RestError (Js.lit "The operation timed out.")) else None;
     now := now quiet; random36 := random36 quiet; requestId := requestId quiet;
     db_now := db_now quiet |}.

(** The values of [sql.Int]: the 32-bit signed integers. *)
Definition in_sql_Int (id : Z) : bool :=
  (-2147483648 <=? id) && (id <=? 2147483647).

(** The id a statement binds with [.input('id', sql.Int, _)] or
    [.input('photoId', sql.Int, _)], when it binds one. *)
Definition bound_id (c : Call) : option Z :=
  match c with
  | Query (SelectImageUrl id) | Query (DeletePhoto id)
  | Query (InsertComment id _) | Query (SelectComments id) => Some id
  | _ => None
  end.

(** The driver validating what a statement binds: an id outside
    [sql.Int] is refused before the statement reaches the server, with an
    error that carries no [number]. *)
Definition int_checked : Env :=
  {| env_CONTAINER_NAME := env_CONTAINER_NAME quiet;
     containerClient := containerClient quiet;
     poolPromise := Connected;
     fault := fun _ c =>
       match bound_id c with
       | Some id =>
           if in_sql_Int id then None
           else Some (Error (Js.lit "Validation failed for parameter 'id'. Value must be between -2147483648 and 2147483647, inclusive."))
       | None => None
       end;
     now := now quiet; random36 := random36 quiet; requestId := requestId quiet;
     db_now := db_now quiet |}.

(** The object store refuses every delete. *)
Definition blob_delete_refused : Env :=
  {| env_CONTAINER_NAME := env_CONTAINER_NAME quiet;
     containerClient := containerClient quiet;
     poolPromise := Connected;
     fault := fun _ c =>
       if is_blob_delete c then Some (RestError (Js.lit "The operation timed out.")) else None;
     now := now quiet; random36 := random36 quiet; requestId := requestId quiet;
     db_now := db_now quiet |}.

Definition sunset_jpeg : File :=
  {| buffer := [255; 216; 255; 224]%N; originalname := Js.lit "sunset.jpg";
     mimetype := Js.lit "image/jpeg" |}.

Definition sunset : PhotoForm :=
  {| file := Some sunset_jpeg; title := Some (Js.lit "Sunset");
     caption := Some []; location := Some (Js.lit "Lahore") |}.

(** A file part that carries a name and no bytes. *)
Definition blank_jpeg : File :=
  {| buffer := []; originalname := Js.lit "blank.jpg"; mimetype := Js.lit "image/jpeg" |}.

Definition blank_upload : PhotoForm :=
  {| file := Some blank_jpeg; title := Some (Js.lit "Sunset");
     caption := None; location := None |}.

(** The world after [sunset] was posted to the quiet environment. *)
Definition one_photo : World := (post_photos quiet sunset empty_world).2.

(** A form without the file part. *)
Definition no_file : PhotoForm :=
  {| file := None; title := Some (Js.lit "Sunset"); caption := None; location := None |}.

(** Three photos, inserted out of the order of their timestamps. *)
Definition snapshot (i t : Z) : Photo.row :=
  {| Photo.id := i; Photo.title := Js.lit "Sunset"; Photo.caption := None;
     Photo.location := None; Photo.image_url := Some (Js.lit "17-ab.jpg");
     Photo.created_at := t |}.

Definition three_photos : World :=
  set_tables [snapshot 1 5; snapshot 2 9; snapshot 3 7] [] empty_world.

(** A blob whose name holds the container's segment, and its URL. *)
Definition nested_name : Js.str := Js.lit "a/photos/b.jpg".

Definition nested_url : Js.str :=
  Js.lit "https://acc.blob.core.windows.net/photos/a/photos/b.jpg".

Definition two_blobs : World :=
  set_container
    (<[Js.lit "a" := {| content := [1]%N; contentType := Js.lit "image/png" |}]>
       (<[nested_name := {| content := [2]%N; contentType := Js.lit "image/jpeg" |}]> ∅))
    empty_world.

(** ** Names for what the source computes in passing *)

(** blob.js line 36: [originalName.split('.').pop()]. *)
Definition extension_of (originalName : Js.str) : Js.str :=
  default (Js.lit "undefined") (Js.pop (Js.split originalName (Js.lit "."))).

(** blob.js line 37, before the extension:
    [`${Date.now()}-${Math.random().toString(36).substring(7)}`], when [n]
    backend calls have been made. *)
Definition token_at (env : Env) (n : nat) : Js.str :=
  Js.decimal (now env n) ++ Js.lit "-" ++ Js.substring 7 (random36 env n).

(** blob.js line 37: the name of the blob. *)
Definition blobName_at (env : Env) (n : nat) (originalName : Js.str) : Js.str :=
  token_at env n ++ Js.lit "." ++ extension_of originalName.

(** The object an upload leaves in the container. *)
Definition uploaded (f : File) : Blob :=
  {| content := buffer f; contentType := mimetype f |}.

(** Both backends answer every call. *)
Definition never_fails (env : Env) : Prop :=
  poolPromise env = Connected /\ forall n c, fault env n c = None.

(** [res.status(code).json(b)] as the outcome of a handler. *)
Definition answer (code : Z) (b : Body) : Result Response :=
  Ok {| status := code; body := b |}.

(** The container of the quiet environment, as the account names it. *)
Definition account : Js.str := Js.lit "https://acc.blob.core.windows.net".

(** A file whose extension holds a blank, which a URL spells "%20". *)
Definition pic_ture : File :=
  {| buffer := [1; 2; 3]%N; originalname := Js.lit "holiday.pic ture";
     mimetype := Js.lit "image/png" |}.

Definition holiday : PhotoForm :=
  {| file := Some pic_ture; title := Some (Js.lit "Holiday");
     caption := None; location := None |}.

(** The relational store is unreachable: the pool's promise is rejected. *)
Definition pool_down : Env :=
  {| env_CONTAINER_NAME := env_CONTAINER_NAME quiet;
     containerClient := containerClient quiet;
     poolPromise := ConnectFailed (Js.lit "Failed to connect to server");
     fault := fault quiet;
     now := now quiet; random36 := random36 quiet; requestId := requestId quiet;
     db_now := db_now quiet |}.


(** The world after a comment, sent with blanks around it, was added to
    the photo of [one_photo]. *)
Definition one_comment : World :=
  (post_photos_id_comments quiet 1 (Js.Str (Js.lit " Nice! ")) one_photo).2.


(** What a run may change in the stores: the two tables with their
    identity counters, and the container. *)
Definition same_tables (w w' : World) : Prop :=
  Photos w' = Photos w /\ Comments w' = Comments w
  /\ next_photo w' = next_photo w /\ next_comment w' = next_comment w.

Definition same_stores (w w' : World) : Prop :=
  same_tables w w' /\ container w' = container w.

(** * Properties *)

(** ** Strings *)

Section StringFacts.

Implicit Types p s sep cur pre rest : Js.str.

Lemma starts_with_app p t : Js.starts_with p (p ++ t) = true.
Proof.
  induction p as [|a p IH]; simpl; [done|].
  by rewrite N.eqb_refl, IH.
Qed.

Lemma starts_with_inv p s : Js.starts_with p s = true -> s = p ++ drop (length p) s.
Proof.
  revert s. induction p as [|a p IH]; intros [|b s]; simpl; try done.
  intros [Hab Hs]%andb_true_iff. apply N.eqb_eq in Hab as ->.
  f_equal. by apply IH.
Qed.

Lemma starts_with_length p s : Js.starts_with p s = true -> (length p <= length s)%nat.
Proof.
  intros H%starts_with_inv. rewrite H, length_app. lia.
Qed.

Lemma includes_drop s sub j :
  Js.starts_with sub (drop j s) = true -> Js.includes s sub = true.
Proof.
  revert j. induction s as [|c s IH]; intros j H.
  - rewrite drop_nil in H. simpl. by rewrite H.
  - destruct j as [|j]; simpl in *.
    + by rewrite H.
    + apply orb_true_iff. right. by eapply IH.
Qed.

Lemma includes_app s sub a b : s = a ++ sub ++ b -> Js.includes s sub = true.
Proof.
  intros ->. apply (includes_drop _ _ (length a)).
  rewrite drop_app_length. apply starts_with_app.
Qed.

Lemma includes_false_drop s sub j :
  Js.includes s sub = false -> Js.starts_with sub (drop j s) = false.
Proof.
  intros H. destruct (Js.starts_with sub (drop j s)) eqn:E; [|done].
  apply includes_drop in E. congruence.
Qed.

(** A matched separator is passed over, whatever it holds. *)
Lemma split_from_skip sep k cur s :
  Js.split_from sep k cur s = Js.split_from sep 0 cur (drop k s).
Proof.
  revert k. induction s as [|c s IH]; intros [|k]; simpl; try done.
Qed.

(** Nothing to cut at: one piece. *)
Lemma split_from_none sep cur s :
  sep <> [] ->
  (forall j, Js.starts_with sep (drop j s) = false) ->
  Js.split_from sep 0 cur s = [rev cur ++ s].
Proof.
  intros Hsep. revert cur. induction s as [|c s IH]; intros cur H.
  - simpl. by rewrite app_nil_r.
  - cbn [Js.split_from]. rewrite (H 0%nat : Js.starts_with sep (c :: s) = false).
    rewrite IH by (intros j; apply (H (S j))).
    simpl. by rewrite <- app_assoc.
Qed.

(** The first cut falls at the first occurrence of the separator. *)
Lemma split_from_first sep cur pre rest :
  sep <> [] ->
  (forall j, (j < length pre)%nat ->
     Js.starts_with sep (drop j (pre ++ sep ++ rest)) = false) ->
  Js.split_from sep 0 cur (pre ++ sep ++ rest)
  = (rev cur ++ pre) :: Js.split_from sep 0 [] rest.
Proof.
  intros Hsep. revert cur. induction pre as [|a pre IH]; intros cur H.
  - destruct sep as [|c sep]; [done|].
    change ([] ++ (c :: sep) ++ rest) with (c :: (sep ++ rest)).
    cbn [Js.split_from].
    change (c :: sep ++ rest) with ((c :: sep) ++ rest).
    rewrite starts_with_app, app_nil_r.
    rewrite split_from_skip. simpl. rewrite Nat.sub_0_r.
    by rewrite drop_app_length.
  - change ((a :: pre) ++ sep ++ rest) with (a :: (pre ++ sep ++ rest)).
    cbn [Js.split_from].
    rewrite (H 0%nat ltac:(simpl; lia) : Js.starts_with sep (a :: pre ++ sep ++ rest) = false).
    rewrite IH.
    + simpl. by rewrite <- app_assoc.
    + intros j Hj. apply (H (S j)). simpl. lia.
Qed.

(** Code units that [trim] strips, all of them: nothing is left. *)
Lemma trim_start_white s : forallb Js.is_white s = true -> Js.trim_start s = [].
Proof.
  induction s as [|c s IH]; simpl; [done|].
  intros [-> Hs]%andb_true_iff. by apply IH.
Qed.

Lemma trim_white s : forallb Js.is_white s = true -> Js.trim s = [].
Proof.
  intros H. unfold Js.trim. by rewrite (trim_start_white s H).
Qed.

Lemma trim_start_nil_inv s : Js.trim_start s = [] -> forallb Js.is_white s = true.
Proof.
  induction s as [|c s IH]; simpl; [done|].
  destruct (Js.is_white c); [done|discriminate].
Qed.

Lemma trim_start_keeps s :
  Js.trim_start s <> [] -> exists c t, Js.trim_start s = c :: t /\ Js.is_white c = false.
Proof.
  induction s as [|c s IH]; simpl; [done|].
  destruct (Js.is_white c) eqn:E; [done|]. intros _. by exists c, s.
Qed.

Lemma trim_nil_inv s : Js.trim s = [] -> forallb Js.is_white s = true.
Proof.
  unfold Js.trim. intros H.
  destruct (decide (Js.trim_start s = [])) as [E|E]; [by apply trim_start_nil_inv|].
  destruct (trim_start_keeps s E) as (c & t & Hs & Hc).
  exfalso. rewrite Hs in H.
  assert (Hr : Js.trim_start (rev (c :: t)) = []).
  { apply (f_equal (@rev N)) in H. by rewrite rev_involutive in H. }
  apply trim_start_nil_inv in Hr.
  rewrite forallb_forall in Hr.
  assert (Js.is_white c = true) by (apply Hr, in_rev; rewrite rev_involutive; by left).
  congruence.
Qed.

End StringFacts.

(** ** Runs of the handlers *)

Lemma new_calls_app w w' l : calls w' = calls w ++ l -> new_calls w w' = l.
Proof. unfold new_calls. intros ->. apply drop_app_length. Qed.

Lemma new_calls_same w w' : calls w' = calls w -> new_calls w w' = [].
Proof. intros H. apply new_calls_app. by rewrite app_nil_r. Qed.

Lemma filter_id_none id (l : list Photo.row) :
  Forall (fun p => Photo.id p <> id) l -> filter (fun p => Photo.id p = id) l = [].
Proof.
  induction 1 as [|p l Hp _ IH]; [done|].
  rewrite filter_cons_False; done.
Qed.

Lemma head_filter_cons id (l : list Photo.row) p :
  head (filter (fun p => Photo.id p = id) l) = Some p ->
  exists l', filter (fun p => Photo.id p = id) l = p :: l'.
Proof. destruct (filter _ l) as [|q l']; [done|]. intros [= ->]. by exists l'. Qed.

Lemma forall_filter_ne_photo id (l : list Photo.row) :
  Forall (fun p => Photo.id p <> id) (filter (fun p => Photo.id p <> id) l).
Proof. apply Forall_forall. by intros p [? _]%list_elem_of_filter. Qed.

Lemma forall_filter_ne_comment id (l : list Comment.row) :
  Forall (fun c => Comment.photo_id c <> id) (filter (fun c => Comment.photo_id c <> id) l).
Proof. apply Forall_forall. by intros p [? _]%list_elem_of_filter. Qed.

(** Unfold a handler down to the state transformer it denotes. *)
Ltac run :=
  unfold delete_photos_id, post_photos, get_photos, post_photos_id_comments,
    get_photos_id_comments, selectPhotos, insertPhoto, selectPhotoImageUrl,
    deletePhoto, insertComment, selectComments, uploadImageToBlob, deleteImageFromBlob,
    try_catch, bind, backend, await_pool, respond, ret, throw, console_error, console_log.

(** Read off the calls that a run appended. *)
Ltac trace :=
  first [ rewrite new_calls_same by reflexivity
        | erewrite new_calls_app by (cbn; rewrite <- ?app_assoc; reflexivity) ].

(** Decide a closed decidable proposition by evaluation. *)
Ltac evaluate := apply (bool_decide_unpack _); vm_compute; exact I.

(** [deleteImageFromBlob] in closed form: it returns normally on each of
    its three paths. *)
Lemma deleteImageFromBlob_run env input w :
  deleteImageFromBlob env input w =
  match containerClient env with
  | None =>
      (Ok tt,
       log_line (Js.lit "Blob storage client not initialized, cannot delete blob.") w)
  | Some _ =>
      let key := blobName_of env input in
      let w1 := log_call (DeleteIfExists key) w in
      match fault env (length (calls w)) (DeleteIfExists key) with
      | Some e => (Ok tt, log_line (Js.lit "Error deleting blob: " ++ err_message e) w1)
      | None =>
          (Ok tt, log_line (deleted_line key) (set_container (delete key (container w1)) w1))
      end
  end.
Proof.
  run. destruct (containerClient env); [|done].
  cbn zeta. by destruct (fault env _ _).
Qed.

(** ** Create-photo *)

(** C1.  In every run of POST /photos an INSERT INTO Photos, and indeed
    any call to the relational store or its pool, is made only after an
    upload to the object store; and when [uploadImageToBlob] throws, the
    handler answers 500 "Failed to process request", reaches neither the
    pool nor any statement, and leaves both tables as they were. *)
Theorem create_put_then_insert env req w :
  let out := post_photos env req w in
  preceded_by is_upload is_insert_photo false (new_calls w out.2) = true
  /\ preceded_by is_upload is_metadata_store false (new_calls w out.2) = true
  /\ (forall f e w1,
        file req = Some f -> present (title req) = true ->
        uploadImageToBlob env (buffer f) (originalname f) (mimetype f) w = (Throw e, w1) ->
        out.1 = Ok {| status := 500;
                      body := error_ (Js.lit "Failed to process request") |}
        /\ Forall (fun c => is_metadata_store c = false) (new_calls w out.2)
        /\ Photos out.2 = Photos w /\ Comments out.2 = Comments w).
Proof.
  cbn zeta. apply and_assoc. split.
  - run. destruct (file req) as [f|]; cbn; [|by trace].
    destruct (present (title req)); cbn; [|by trace].
    destruct (containerClient env) as [url|]; cbn; [|by trace].
    destruct (fault env _ _); cbn; [by trace|].
    destruct (poolPromise env); cbn; [|by trace].
    destruct (fault env _ _); cbn; by trace.
  - intros f e w1 Hf Ht. unfold post_photos, try_catch, bind. rewrite Hf, Ht. cbn.
    intros Hup. rewrite Hup. cbn. split; [done|].
    revert Hup. run. destruct (containerClient env) as [url|]; cbn.
    + destruct (fault env _ _); cbn; [|done].
      intros [= <- <-]. cbn. split_and!; try done. trace. by repeat constructor.
    + intros [= <- <-]. cbn. split_and!; try done. by trace.
Qed.

Lemma create_put_then_insert_witness :
  file sunset = Some sunset_jpeg
  /\ present (title sunset) = true
  /\ (post_photos upload_refused sunset empty_world).1
     = Ok {| status := 500; body := error_ (Js.lit "Failed to process request") |}
  /\ Photos (post_photos upload_refused sunset empty_world).2 = [].
Proof.
  destruct (create_put_then_insert upload_refused sunset empty_world) as (_ & _ & H).
  edestruct (H sunset_jpeg) as (Hresp & _ & Hrows & _);
    [reflexivity | reflexivity | vm_compute; reflexivity |].
  split; [reflexivity|]. split; [reflexivity|]. split; [exact Hresp|exact Hrows].
Defined.

(** ** Delete-photo *)

(** C2, as stated, fails: with no row of Photos under the id, the
    response is not always 404.  DELETE /photos/2147483648 binds an id
    outside [sql.Int]; the driver refuses the lookup, the handler's
    [catch] answers 500. *)
Lemma delete_unknown_id_not_always_404 :
  ~ (forall env id w,
       Forall (fun p => Photo.id p <> id) (Photos w) ->
       (delete_photos_id env id w).1
       = Ok {| status := 404; body := error_ (Js.lit "Photo not found") |}).
Proof.
  intros H.
  assert (Hid : Forall (fun p => Photo.id p <> 2147483648) (Photos one_photo))
    by evaluate.
  specialize (H int_checked 2147483648 one_photo Hid).
  vm_compute in H. discriminate H.
Qed.

(** C2, amended.  When no row of Photos has the id, DELETE /photos/:id
    calls neither the object store nor the DELETE statement and leaves
    the tables and the container as they were, whatever the backends do.
    The response is 404 "Photo not found" when the pool is connected and
    the lookup is answered, and 500 "Failed to delete photo" when the pool
    is rejected or the lookup fails, as it does for an id the driver
    refuses. *)
Theorem delete_unknown_id env id w :
  Forall (fun p => Photo.id p <> id) (Photos w) ->
  let out := delete_photos_id env id w in
  let lookup := fault env (S (length (calls w))) (Query (SelectImageUrl id)) in
  Forall (fun c => is_object_store c = false /\ is_delete_photo c = false)
    (new_calls w out.2)
  /\ Photos out.2 = Photos w /\ Comments out.2 = Comments w
  /\ container out.2 = container w
  /\ (poolPromise env = Connected -> lookup = None ->
      out.1 = Ok {| status := 404; body := error_ (Js.lit "Photo not found") |})
  /\ (poolPromise env <> Connected \/ lookup <> None ->
      out.1 = Ok {| status := 500; body := error_ (Js.lit "Failed to delete photo") |}).
Proof.
  intros Hid. cbn zeta.
  replace (S (length (calls w))) with (length (calls (log_call AwaitPool w)))
    by (cbn; rewrite length_app; cbn; lia).
  run. cbn zeta.
  destruct (poolPromise env) eqn:Hpool; cbn.
  - destruct (fault env _ _) eqn:Hf; cbn.
    + split_and!; try done.
      trace. repeat constructor.
    + rewrite (filter_id_none _ _ Hid). cbn.
      split_and!; try done.
      * trace. repeat constructor.
      * intros [H|H]; done.
  - split_and!; try done.
    trace. repeat constructor.
Qed.

Lemma delete_unknown_id_witness :
  Forall (fun p => Photo.id p <> 7) (Photos one_photo)
  /\ (delete_photos_id quiet 7 one_photo).1
     = Ok {| status := 404; body := error_ (Js.lit "Photo not found") |}
  /\ Photos (delete_photos_id quiet 7 one_photo).2 = Photos one_photo
  /\ (delete_photos_id int_checked 2147483648 one_photo).1
     = Ok {| status := 500; body := error_ (Js.lit "Failed to delete photo") |}
  /\ container (delete_photos_id int_checked 2147483648 one_photo).2
     = container one_photo.
Proof.
  assert (Hid : Forall (fun p => Photo.id p <> 7) (Photos one_photo)) by evaluate.
  assert (Hbig : Forall (fun p => Photo.id p <> 2147483648) (Photos one_photo))
    by evaluate.
  destruct (delete_unknown_id quiet 7 one_photo Hid) as (_ & Hrows & _ & _ & Hresp & _).
  destruct (delete_unknown_id int_checked 2147483648 one_photo Hbig)
    as (_ & _ & _ & Hblobs & _ & Hfails).
  split; [exact Hid|]. split; [apply Hresp; reflexivity|]. split; [exact Hrows|].
  split; [|exact Hblobs].
  apply Hfails. right. vm_compute. discriminate.
Defined.

(** C3.  When the lookup finds a row, the DELETE statement is sent
    whatever happens to the blob: the object store is called only if the
    row's [image_url] is truthy, and neither a missing client nor a failed
    blob delete stops the handler.  Once the DELETE is performed the
    response is 200 and neither the row nor a comment of the photo is
    left. *)
Theorem delete_known_id env id w p :
  head (filter (fun p => Photo.id p = id) (Photos w)) = Some p ->
  poolPromise env = Connected ->
  (forall n, fault env n (Query (SelectImageUrl id)) = None) ->
  let out := delete_photos_id env id w in
  Query (DeletePhoto id) ∈ new_calls w out.2
  /\ (existsb is_blob_delete (new_calls w out.2) = true ->
      present (Photo.image_url p) = true)
  /\ ((forall n, fault env n (Query (DeletePhoto id)) = None) ->
      out.1 = Ok {| status := 200;
                    body := message_ (Js.lit "Photo deleted successfully") |}
      /\ Forall (fun p => Photo.id p <> id) (Photos out.2)
      /\ Forall (fun c => Comment.photo_id c <> id) (Comments out.2)).
Proof.
  intros [l' Hrow]%head_filter_cons Hpool Hsel. run. cbn zeta.
  rewrite Hpool. cbn. rewrite Hsel, Hrow. cbn.
  assert (Hgone : forall w0 : World,
    Forall (fun p => Photo.id p <> id) (filter (fun p => Photo.id p <> id) (Photos w0))
    /\ Forall (fun c => Comment.photo_id c <> id)
         (filter (fun c => Comment.photo_id c <> id) (Comments w0))).
  { intros w0. split; [apply forall_filter_ne_photo|apply forall_filter_ne_comment]. }
  destruct (present (Photo.image_url p)) eqn:Hurl; cbn.
  - destruct (containerClient env) as [url|]; cbn.
    + destruct (fault env _ (DeleteIfExists _)) eqn:Hblob; cbn;
        (destruct (fault env _ (Query (DeletePhoto id))) eqn:Hdel; cbn;
         (split; [trace; repeat constructor|split; [done|]];
          intros Hok; first [by rewrite Hok in Hdel | split; [done|apply Hgone]])).
    + destruct (fault env _ (Query (DeletePhoto id))) eqn:Hdel; cbn;
        (split; [trace; repeat constructor|split; [done|]];
         intros Hok; first [by rewrite Hok in Hdel | split; [done|apply Hgone]]).
  - destruct (fault env _ (Query (DeletePhoto id))) eqn:Hdel; cbn;
      (split; [trace; repeat constructor|split; [by trace|]];
       intros Hok; first [by rewrite Hok in Hdel | split; [done|apply Hgone]]).
Qed.

Lemma delete_known_id_witness :
  (exists p, head (filter (fun p => Photo.id p = 1) (Photos one_photo)) = Some p)
  /\ Query (DeletePhoto 1)
       ∈ new_calls one_photo (delete_photos_id blob_delete_refused 1 one_photo).2
  /\ (delete_photos_id blob_delete_refused 1 one_photo).1
     = Ok {| status := 200; body := message_ (Js.lit "Photo deleted successfully") |}
  /\ Photos (delete_photos_id blob_delete_refused 1 one_photo).2 = [].
Proof.
  assert (Hrow : exists p,
    head (filter (fun p => Photo.id p = 1) (Photos one_photo)) = Some p).
  { eexists. vm_compute. reflexivity. }
  destruct Hrow as [p Hp].
  destruct (delete_known_id blob_delete_refused 1 one_photo p Hp eq_refl
              (fun _ => eq_refl)) as (Hsent & _ & Hdone).
  destruct (Hdone (fun _ => eq_refl)) as (Hresp & _ & _).
  split; [by exists p|]. split; [exact Hsent|]. split; [exact Hresp|].
  vm_compute. reflexivity.
Defined.

(** ** Add-comment *)

(** C4.  For a non-empty text, POST /photos/:id/comments answers 404
    "Photo not found" only if the INSERT INTO Comments threw an error
    whose native number is 547, the store's foreign-key conflict.  When
    the text is not blank, so that the insert is reached, that error is
    answered with the 404 and every other error of the insert with 500
    "Failed to add comment".  When no photo has the id, no comment row is
    created, and the answer is the 404 as soon as the pool is connected
    and the backend does not fail the insert for another reason. *)
Theorem comment_foreign_key_only env id text w :
  text <> [] ->
  let out := post_photos_id_comments env id (Js.Str text) w in
  let ins := insertComment env id text (log_call AwaitPool w) in
  (out.1 = Ok {| status := 404; body := error_ (Js.lit "Photo not found") |} ->
     poolPromise env = Connected /\ exists e, ins.1 = Throw e /\ err_number e = Some 547)
  /\ (forall e, Js.trim text <> [] -> poolPromise env = Connected -> ins.1 = Throw e ->
        (err_number e = Some 547 ->
         out.1 = Ok {| status := 404; body := error_ (Js.lit "Photo not found") |})
        /\ (err_number e <> Some 547 ->
            out.1 = Ok {| status := 500;
                          body := error_ (Js.lit "Failed to add comment") |}))
  /\ (Forall (fun p => Photo.id p <> id) (Photos w) ->
      Comments out.2 = Comments w
      /\ (Js.trim text <> [] -> poolPromise env = Connected ->
          (forall n, fault env n (Query (InsertComment id text)) = None) ->
          out.1 = Ok {| status := 404; body := error_ (Js.lit "Photo not found") |})).
Proof.
  intros Htext. cbn zeta. unfold post_photos_id_comments.
  assert (Htruthy : Js.truthy (Js.Str text) = true) by by destruct text.
  rewrite Htruthy. cbn [negb]. clear Htext Htruthy.
  destruct (Js.trim text) as [|c t] eqn:Ht.
  { cbn. split; [done|]. split; [done|]. intros _. split; [done|done]. }
  clear Ht.
  assert (Hmiss : Forall (fun p => Photo.id p <> id) (Photos w) ->
                  bool_decide (Exists (fun p => Photo.id p = id) (Photos w)) = false).
  { intros H. apply bool_decide_eq_false. intros (p & Hp & Hid)%Exists_exists.
    rewrite Forall_forall in H. by apply (H p). }
  run. destruct (poolPromise env) as [|m]; cbn.
  - destruct (fault env _ _) as [e|] eqn:Hf; cbn.
    + destruct (bool_decide (err_number e = Some 547)) eqn:He; cbn.
      * apply bool_decide_eq_true in He. split; [|split].
        -- intros _. split; [done|]. by exists e.
        -- intros e' _ _ [= <-]. done.
        -- intros _. split; [done|]. intros _ _ H. by rewrite H in Hf.
      * apply bool_decide_eq_false in He. split; [|split].
        -- done.
        -- intros e' _ _ [= <-]. done.
        -- intros _. split; [done|]. intros _ _ H. by rewrite H in Hf.
    + destruct (bool_decide (Exists _ _)) eqn:Hex; cbn.
      * split; [|split].
        -- done.
        -- done.
        -- intros H. apply Hmiss in H. congruence.
      * split; [|split].
        -- intros _. split; [done|]. by eexists.
        -- intros e' _ _ [= <-]. done.
        -- done.
  - split; [|split]; done.
Qed.

Lemma comment_foreign_key_only_witness :
  Js.lit "Nice!" <> []
  /\ Js.trim (Js.lit "Nice!") <> []
  /\ Forall (fun p => Photo.id p <> 7) (Photos one_photo)
  /\ (post_photos_id_comments quiet 7 (Js.Str (Js.lit "Nice!")) one_photo).1
     = Ok {| status := 404; body := error_ (Js.lit "Photo not found") |}
  /\ Comments (post_photos_id_comments quiet 7 (Js.Str (Js.lit "Nice!")) one_photo).2
     = Comments one_photo.
Proof.
  assert (Htext : Js.lit "Nice!" <> []) by (vm_compute; discriminate).
  assert (Hink : Js.trim (Js.lit "Nice!") <> []) by (vm_compute; discriminate).
  assert (Hid : Forall (fun p => Photo.id p <> 7) (Photos one_photo)) by evaluate.
  destruct (comment_foreign_key_only quiet 7 (Js.lit "Nice!") one_photo Htext)
    as (_ & _ & Hmissing).
  destruct (Hmissing Hid) as [Hrows Hresp].
  split; [exact Htext|]. split; [exact Hink|]. split; [exact Hid|].
  split; [|exact Hrows].
  apply Hresp; [exact Hink|reflexivity|]. intros n. reflexivity.
Defined.

(** C8.  A [comment_text] that is absent, null, empty or made of white
    space only is answered with 400 "Comment text cannot be empty", and
    the world is what it was: no pool, no statement, no call at all. *)
Theorem comment_blank_rejected env id v w :
  v = Js.Undefined \/ v = Js.Null
  \/ (exists s, v = Js.Str s /\ forallb Js.is_white s = true) ->
  let out := post_photos_id_comments env id v w in
  out.1 = Ok {| status := 400; body := error_ (Js.lit "Comment text cannot be empty") |}
  /\ out.2 = w /\ new_calls w out.2 = [].
Proof.
  intros [->|[->|(s & -> & Hs)]]; cbn zeta; unfold post_photos_id_comments; cbn.
  - split_and!; try done. by apply new_calls_same.
  - split_and!; try done. by apply new_calls_same.
  - rewrite (trim_white s Hs).
    destruct s; cbn; (split_and!; try done; by apply new_calls_same).
Qed.

Lemma comment_blank_rejected_witness :
  forallb Js.is_white (Js.lit "   ") = true
  /\ post_photos_id_comments upload_refused 1 (Js.Str (Js.lit "   ")) one_photo
     = (Ok {| status := 400; body := error_ (Js.lit "Comment text cannot be empty") |},
        one_photo).
Proof.
  assert (Hblank : forallb Js.is_white (Js.lit "   ") = true) by (vm_compute; reflexivity).
  destruct (comment_blank_rejected upload_refused 1 (Js.Str (Js.lit "   ")) one_photo)
    as (Hresp & Hworld & _).
  { right. right. exists (Js.lit "   "). split; [reflexivity|exact Hblank]. }
  split; [exact Hblank|].
  rewrite (surjective_pairing (post_photos_id_comments _ _ _ _)).
  by rewrite Hresp, Hworld.
Defined.

(** ** Validation of a create-photo request *)

(** C5, as stated, fails: a request whose file part has no bytes is not
    answered with 400; it is uploaded and inserted. *)
Lemma create_empty_bytes_accepted :
  ~ (forall env req w,
       title req = None \/ file req = None
       \/ (exists f, file req = Some f /\ buffer f = []) ->
       exists msg,
         post_photos env req w = (Ok {| status := 400; body := error_ msg |}, w)).
Proof.
  intros H.
  destruct (H quiet blank_upload empty_world) as [msg Hmsg].
  - right. right. by exists blank_jpeg.
  - vm_compute in Hmsg. discriminate Hmsg.
Qed.

(** C5, amended.  POST /photos answers 400 without touching the world
    when the file part is missing or the title is missing or empty; a
    request with a file part and a title is never answered with 400,
    whatever the length of the file's bytes. *)
Theorem create_rejects_missing_input env req w :
  let out := post_photos env req w in
  (file req = None \/ present (title req) = false ->
   out.2 = w /\ exists msg, out.1 = Ok {| status := 400; body := error_ msg |})
  /\ (forall f, file req = Some f -> present (title req) = true ->
      exists resp, out.1 = Ok resp /\ status resp <> 400).
Proof.
  cbn zeta. split.
  - intros H. unfold post_photos, try_catch, respond, ret.
    destruct (file req) as [f|]; cbn.
    + destruct H as [ H | H ]; [done|]; rewrite H. cbn. eauto.
    + eauto.
  - intros f Hf Ht. run. rewrite Hf, Ht. cbn.
    destruct (containerClient env); cbn; [|by eexists].
    destruct (fault env _ _); cbn; [by eexists|].
    destruct (poolPromise env); cbn; [|by eexists].
    destruct (fault env _ _); cbn; by eexists.
Qed.

Lemma create_rejects_missing_input_witness :
  file no_file = None
  /\ (post_photos quiet no_file one_photo).2 = one_photo
  /\ exists msg,
       (post_photos quiet no_file one_photo).1
       = Ok {| status := 400; body := error_ msg |}.
Proof.
  destruct (create_rejects_missing_input quiet no_file one_photo) as [H _].
  split; [reflexivity|]. apply H. left. reflexivity.
Defined.

(** C10.  When POST /photos answers 201, the row it returns is the one
    appended to Photos, and its caption (its location) is NULL if the
    field was absent or empty and the field's text otherwise. *)
Theorem create_optional_fields env req w resp w' :
  post_photos env req w = (Ok resp, w') ->
  status resp = 201 ->
  exists row,
    body resp = photo_ (Some row)
    /\ Photos w' = Photos w ++ [row]
    /\ (caption req = None \/ caption req = Some [] -> Photo.caption row = None)
    /\ (forall c s, caption req = Some (c :: s) -> Photo.caption row = Some (c :: s))
    /\ (location req = None \/ location req = Some [] -> Photo.location row = None)
    /\ (forall c s, location req = Some (c :: s) -> Photo.location row = Some (c :: s)).
Proof.
  run. destruct (file req) as [f|]; cbn; [|by intros [= <- <-]].
  destruct (present (title req)); cbn; [|by intros [= <- <-]].
  destruct (containerClient env); cbn; [|by intros [= <- <-]].
  destruct (fault env _ _); cbn; [by intros [= <- <-]|].
  destruct (poolPromise env); cbn; [|by intros [= <- <-]].
  destruct (fault env _ _); cbn; [by intros [= <- <-]|].
  intros [= <- <-] _. cbn. eexists. split; [done|]. split; [done|]. cbn.
  split_and!.
  - by intros [->| ->].
  - by intros ? ? ->.
  - by intros [->| ->].
  - by intros ? ? ->.
Qed.

Lemma create_optional_fields_witness :
  caption sunset = Some []
  /\ location sunset = Some (Js.lit "Lahore")
  /\ exists row,
       Photos one_photo = [row]
       /\ Photo.caption row = None
       /\ Photo.location row = Some (Js.lit "Lahore").
Proof.
  edestruct (create_optional_fields quiet sunset empty_world) as
    (row & _ & Hrows & Hcaption & _ & _ & Hlocation);
    [vm_compute; reflexivity | reflexivity |].
  split; [reflexivity|]. split; [reflexivity|].
  exists row. split; [exact Hrows|]. split.
  - apply Hcaption. right. reflexivity.
  - apply (Hlocation 76%N (Js.lit "ahore")). reflexivity.
Defined.

(** ** The object-store delete *)

Lemma container_segment_cons env :
  container_segment env = 47%N :: (CONTAINER_NAME env ++ [47%N]).
Proof. reflexivity. Qed.

Lemma split_segment env s :
  Js.split s (container_segment env) = Js.split_from (container_segment env) 0 [] s.
Proof. by rewrite container_segment_cons. Qed.

(** An argument that does not hold the segment is the key as it is. *)
Lemma blobName_of_whole env s :
  Js.includes s (container_segment env) = false -> blobName_of env s = s.
Proof.
  intros Hno. unfold blobName_of.
  destruct (Js.includes s (CONTAINER_NAME env)); [|done].
  rewrite split_segment, split_from_none.
  - done.
  - by rewrite container_segment_cons.
  - intros j. by apply includes_false_drop.
Qed.

(** An argument that holds the segment once, at [j]: the key is all that
    follows the segment. *)
Lemma blobName_of_once env s j :
  Js.starts_with (container_segment env) (drop j s) = true ->
  (forall k, Js.starts_with (container_segment env) (drop k s) = true -> k = j) ->
  blobName_of env s = drop (j + length (container_segment env)) s.
Proof.
  intros Hat Honly.
  assert (Hsep : container_segment env <> []) by by rewrite container_segment_cons.
  pose proof (starts_with_length _ _ Hat) as Hlen.
  assert (Hpos : (0 < length (container_segment env))%nat).
  { rewrite container_segment_cons. simpl. lia. }
  rewrite length_drop in Hlen.
  set (pre := take j s). set (rest := drop (j + length (container_segment env)) s).
  assert (Hs : s = pre ++ container_segment env ++ rest).
  { unfold pre, rest. rewrite <- (take_drop j s) at 1. f_equal.
    rewrite <- drop_drop. by apply starts_with_inv. }
  assert (Hpre : length pre = j) by (unfold pre; rewrite length_take; lia).
  assert (Hparts : Js.split s (container_segment env) = [pre; rest]).
  { rewrite split_segment. rewrite Hs at 1.
    rewrite split_from_first; [|done|].
    - rewrite split_from_none; [done|done|].
      intros k. unfold rest. rewrite drop_drop.
      destruct (Js.starts_with _ (drop (_ + k) s)) eqn:E; [|done].
      apply Honly in E. lia.
    - intros k Hk. rewrite <- Hs.
      destruct (Js.starts_with _ (drop k s)) eqn:E; [|done].
      apply Honly in E. lia. }
  unfold blobName_of. rewrite Hparts.
  rewrite (includes_app s (CONTAINER_NAME env) (pre ++ [47%N]) ([47%N] ++ rest)); [done|].
  rewrite Hs at 1. rewrite container_segment_cons.
  by rewrite <- !app_assoc, <- !app_comm_cons, <- app_assoc.
Qed.

(** C6 fails on the code.  The URL of the blob named "a/photos/b.jpg"
    holds the segment "/photos/" at offset 33 and what follows it is that
    name; [deleteImageFromBlob] takes the piece between the first and the
    second segment, "a", asks the store to delete that blob, removes it,
    and leaves the blob it was given in place. *)
Theorem blob_key_cut_at_second_segment :
  Js.starts_with (container_segment quiet) (drop 33 nested_url) = true
  /\ drop (33 + length (container_segment quiet)) nested_url = nested_name
  /\ blobName_of quiet nested_url = Js.lit "a"
  /\ new_calls two_blobs (deleteImageFromBlob quiet nested_url two_blobs).2
     = [DeleteIfExists (Js.lit "a")]
  /\ container (deleteImageFromBlob quiet nested_url two_blobs).2 !! nested_name
     = container two_blobs !! nested_name
  /\ container two_blobs !! Js.lit "a" <> None
  /\ container (deleteImageFromBlob quiet nested_url two_blobs).2 !! Js.lit "a" = None.
Proof. vm_compute. repeat split; discriminate. Qed.

(** C7.  [deleteImageFromBlob] returns normally for every argument and
    whatever the backend does, having written one line to the console.
    Deleting a key that names no object leaves the container as it was;
    and when the store performs the delete, the line written is the
    success line, the key names no object afterwards, and a second delete
    of the same argument returns normally too and changes nothing. *)
Theorem blob_delete_never_throws env input w :
  let key := blobName_of env input in
  let out := deleteImageFromBlob env input w in
  let again := deleteImageFromBlob env input out.2 in
  out.1 = Ok tt
  /\ (exists line, console out.2 = console w ++ [line])
  /\ (container w !! key = None -> container out.2 = container w)
  /\ (forall url, containerClient env = Some url ->
      fault env (length (calls w)) (DeleteIfExists key) = None ->
      console out.2 = console w ++ [deleted_line key]
      /\ container out.2 !! key = None
      /\ again.1 = Ok tt
      /\ container again.2 = container out.2).
Proof.
  cbn zeta. rewrite !deleteImageFromBlob_run.
  destruct (containerClient env) as [url|] eqn:Hc; cbn zeta.
  - destruct (fault env (length (calls w)) _) as [e|] eqn:Hf.
    + split; [done|]. split; [by eexists|]. split; [done|]. intros url' _ ?. congruence.
    + split; [done|]. split; [by eexists|]. split.
      * intros Hnone. by apply delete_id.
      * intros url' _ _. split; [done|]. split; [by apply lookup_delete_eq|].
        match goal with |- context [fault env ?n ?c] => destruct (fault env n c) end.
        -- done.
        -- split; [done|]. apply delete_id. apply lookup_delete_eq.
  - split; [done|]. split; [by eexists|]. split; [done|]. intros url' ?. congruence.
Qed.

Lemma blob_delete_never_throws_witness :
  container empty_world !! blobName_of quiet (Js.lit "ghost.jpg") = None
  /\ (deleteImageFromBlob quiet (Js.lit "ghost.jpg") empty_world).1 = Ok tt
  /\ container (deleteImageFromBlob quiet (Js.lit "ghost.jpg") empty_world).2
     = container empty_world
  /\ console (deleteImageFromBlob quiet (Js.lit "ghost.jpg") empty_world).2
     = [deleted_line (Js.lit "ghost.jpg")]
  /\ (deleteImageFromBlob quiet (Js.lit "ghost.jpg")
        (deleteImageFromBlob quiet (Js.lit "ghost.jpg") empty_world).2).1 = Ok tt.
Proof.
  destruct (blob_delete_never_throws quiet (Js.lit "ghost.jpg") empty_world)
    as (Hreturns & _ & Hsame & Hdone).
  edestruct Hdone as (Hline & _ & Hagain & _); [reflexivity | reflexivity |].
  split; [reflexivity|]. split; [exact Hreturns|].
  split; [apply Hsame; reflexivity|]. split; [exact Hline|exact Hagain].
Defined.

(** ** Listing the photos *)

#[local] Instance newest_first_total : Total newest_first.
Proof. intros a b. unfold newest_first. lia. Qed.

#[local] Instance newest_first_trans : Transitive newest_first.
Proof. intros a b c. unfold newest_first. lia. Qed.

(** Rows in non-increasing order whose timestamps differ are in
    decreasing order. *)
Lemma newest_first_strict rows :
  StronglySorted newest_first rows ->
  NoDup (Photo.created_at <$> rows) ->
  StronglySorted (fun a b => Photo.created_at b < Photo.created_at a) rows.
Proof.
  induction 1 as [|a l Hl IH Ha]; intros Hnd; [constructor|].
  rewrite fmap_cons in Hnd. apply NoDup_cons in Hnd as [Hin Hnd].
  constructor; [by apply IH|].
  rewrite Forall_forall in Ha |- *. intros b Hb.
  specialize (Ha b Hb). unfold newest_first in Ha.
  assert (Photo.created_at b <> Photo.created_at a).
  { intros Heq. apply Hin. rewrite <- Heq. by apply list_elem_of_fmap_2. }
  lia.
Qed.

(** C9.  With the pool connected and the statement answered, GET /photos
    responds 200 with the recordset of [selectPhotos]: a rearrangement of
    all the rows of Photos in which every row is at least as recent as
    each row after it, and strictly more recent when no two rows share a
    [created_at]. *)
Theorem photos_newest_first env w :
  poolPromise env = Connected ->
  (forall n, fault env n (Query SelectPhotos) = None) ->
  exists rows w',
    selectPhotos env (log_call AwaitPool w) = (Ok rows, w')
    /\ get_photos env w = (Ok {| status := 200; body := photos_ rows |}, w')
    /\ rows ≡ₚ Photos w
    /\ StronglySorted newest_first rows
    /\ (NoDup (Photo.created_at <$> Photos w) ->
        StronglySorted (fun a b => Photo.created_at b < Photo.created_at a) rows).
Proof.
  intros Hpool Hsel. run. rewrite Hpool. cbn. rewrite !Hsel. cbn.
  eexists _, _. split; [done|]. split; [done|].
  assert (Hperm : merge_sort newest_first (Photos w) ≡ₚ Photos w)
    by apply merge_sort_Permutation.
  assert (Hsorted : StronglySorted newest_first (merge_sort newest_first (Photos w)))
    by apply (StronglySorted_merge_sort _).
  split_and!; [done|done|].
  intros Hnd. apply newest_first_strict; [done|]. by rewrite Hperm.
Qed.

Lemma photos_newest_first_witness :
  NoDup (Photo.created_at <$> Photos three_photos)
  /\ exists rows w',
       get_photos quiet three_photos
       = (Ok {| status := 200; body := photos_ rows |}, w')
       /\ Photo.created_at <$> rows = [9; 7; 5]
       /\ StronglySorted (fun a b => Photo.created_at b < Photo.created_at a) rows.
Proof.
  assert (Hnd : NoDup (Photo.created_at <$> Photos three_photos)) by evaluate.
  destruct (photos_newest_first quiet three_photos eq_refl (fun _ => eq_refl))
    as (rows & w' & Hsel & Hget & _ & _ & Hstrict).
  split; [exact Hnd|]. exists rows, w'.
  split; [exact Hget|]. split; [|exact (Hstrict Hnd)].
  vm_compute in Hsel. by injection Hsel as <- _.
Defined.

(** ** Checks on the string functions *)

Example split_url :
  Js.split (Js.lit "https://acc.blob.core.windows.net/photos/17-ab.jpg")
    (Js.lit "/photos/")
  = [Js.lit "https://acc.blob.core.windows.net"; Js.lit "17-ab.jpg"].
Proof. reflexivity. Qed.

Example split_extension :
  Js.pop (Js.split (Js.lit "sunset.final.jpg") (Js.lit ".")) = Some (Js.lit "jpg").
Proof. reflexivity. Qed.

Example split_trailing :
  Js.split (Js.lit "a/photos/") (Js.lit "/photos/") = [Js.lit "a"; []].
Proof. reflexivity. Qed.

Example split_no_separator :
  Js.split (Js.lit "README") (Js.lit ".") = [Js.lit "README"].
Proof. reflexivity. Qed.

Example trim_tabs : Js.trim (9%N :: Js.lit " ok " ++ [10%N]) = Js.lit "ok".
Proof. reflexivity. Qed.

Example bare_key : blobName_of quiet (Js.lit "17-ab.jpg") = Js.lit "17-ab.jpg".
Proof. reflexivity. Qed.

Example url_key :
  blobName_of quiet (Js.lit "https://acc.blob.core.windows.net/photos/17-ab.jpg")
  = Js.lit "17-ab.jpg".
Proof. reflexivity. Qed.

(** * Further properties *)

(** ** More on strings *)

Section MoreStringFacts.

Implicit Types p s sep cur pre rest : Js.str.

Lemma starts_with_elem p s c :
  Js.starts_with p s = true -> c ∈ p -> c ∈ s.
Proof.
  intros H%starts_with_inv Hc. rewrite H. apply elem_of_app. by left.
Qed.

Lemma starts_with_head c p s :
  Js.starts_with (c :: p) s = true -> head s = Some c.
Proof.
  destruct s as [|b s]; simpl; [done|].
  intros [Hb _]%andb_true_iff. by apply N.eqb_eq in Hb as ->.
Qed.

Lemma starts_with_absent c p s j :
  c ∉ s -> Js.starts_with (c :: p) (drop j s) = false.
Proof.
  intros Hc. destruct (Js.starts_with (c :: p) (drop j s)) eqn:E; [|done].
  apply starts_with_head in E. exfalso. apply Hc.
  destruct (drop j s) as [|b t] eqn:Hd; [done|]. injection E as ->.
  apply (list_elem_of_lookup_2 _ j). rewrite <- (Nat.add_0_r j), <- lookup_drop, Hd. done.
Qed.

(** An occurrence that ends inside a prefix is an occurrence in the prefix. *)
Lemma starts_with_within p a b k :
  (k + length p <= length a)%nat ->
  Js.starts_with p (drop k (a ++ b)) = true ->
  Js.starts_with p (drop k a) = true.
Proof.
  intros Hk H. apply starts_with_inv in H.
  rewrite drop_app_le in H by lia.
  assert (Hp : p = take (length p) (drop k a)).
  { apply (f_equal (take (length p))) in H.
    rewrite take_app_le in H by (rewrite length_drop; lia).
    rewrite H at 1. rewrite take_app_length. done. }
  rewrite <- (take_drop (length p) (drop k a)). rewrite <- Hp. apply starts_with_app.
Qed.

(** Where the separator first occurs, if it occurs. *)
Lemma first_occurrence s sep :
  Js.includes s sep = true ->
  exists j, Js.starts_with sep (drop j s) = true
            /\ forall k, (k < j)%nat -> Js.starts_with sep (drop k s) = false.
Proof.
  induction s as [|c s IH]; simpl.
  - rewrite orb_false_r. intros H. exists 0%nat. split; [done|]. lia.
  - destruct (Js.starts_with sep (c :: s)) eqn:E; simpl.
    + intros _. exists 0%nat. split; [done|]. lia.
    + intros (j & Hj & Hbefore)%IH. exists (S j). split; [done|].
      intros [|k] Hk; [done|]. apply Hbefore. lia.
Qed.

Lemma includes_false_iff s sep :
  Js.includes s sep = false <-> forall j, Js.starts_with sep (drop j s) = false.
Proof.
  split; [intros H j; by apply includes_false_drop|].
  intros H. destruct (Js.includes s sep) eqn:E; [|done].
  apply first_occurrence in E as (j & Hj & _). by rewrite H in Hj.
Qed.

(** The text before the first occurrence does not hold the separator. *)
Lemma before_first_clean s sep j :
  sep <> [] ->
  (forall k, (k < j)%nat -> Js.starts_with sep (drop k s) = false) ->
  Js.includes (take j s) sep = false.
Proof.
  intros Hsep Hbefore. apply includes_false_iff. intros k.
  destruct (Js.starts_with sep (drop k (take j s))) eqn:E; [|done].
  pose proof (starts_with_length _ _ E) as Hlen.
  rewrite length_drop, length_take in Hlen.
  assert (0 < length sep)%nat by (destruct sep; [done|simpl; lia]).
  assert (Hk : (k < j)%nat) by lia.
  rewrite <- (Hbefore k Hk). symmetry.
  rewrite <- (take_drop j s) at 1.
  apply starts_with_inv in E.
  rewrite drop_app_le by (rewrite length_take; lia).
  rewrite E, <- app_assoc. apply starts_with_app.
Qed.

(** The first piece of a split: the text up to the first occurrence of the
    separator, all of it when there is none; it never holds the
    separator. *)
Lemma split_from_head sep s :
  sep <> [] ->
  exists k more,
    Js.split_from sep 0 [] s = take k s :: more
    /\ Js.includes (take k s) sep = false
    /\ ((length s <= k)%nat \/ Js.starts_with sep (drop k s) = true).
Proof.
  intros Hsep. destruct (Js.includes s sep) eqn:E.
  - apply first_occurrence in E as (j & Hj & Hbefore).
    exists j, (Js.split_from sep 0 [] (drop (j + length sep) s)).
    split; [|split; [by apply before_first_clean|by right]].
    assert (Hs : s = take j s ++ sep ++ drop (j + length sep) s).
    { rewrite <- (take_drop j s) at 1. f_equal.
      rewrite <- drop_drop. by apply starts_with_inv. }
    rewrite Hs at 1. rewrite split_from_first; [done|done|].
    rewrite <- Hs. intros k Hk. apply Hbefore.
    rewrite length_take in Hk. lia.
  - exists (length s), []. rewrite firstn_all.
    split; [|split; [done|by left]].
    rewrite split_from_none; [done|done|]. by apply includes_false_iff.
Qed.

(** [name.split('.').pop()]: the text after the last dot. *)
Lemma last_split_from c cur stem ext :
  c ∉ ext ->
  last (Js.split_from [c] 0 cur (stem ++ c :: ext)) = Some ext.
Proof.
  intros Hc. revert cur. induction stem as [|a stem IH]; intros cur.
  - cbn [app Js.split_from Js.starts_with]. rewrite N.eqb_refl. cbn [andb length Nat.sub].
    rewrite split_from_none; [done|done|].
    intros j. by apply starts_with_absent.
  - cbn [app Js.split_from Js.starts_with]. destruct (N.eqb c a); cbn [andb length Nat.sub].
    + rewrite last_cons, IH. done.
    + apply IH.
Qed.

End MoreStringFacts.

(** ** The object-store client, further *)

(** X1.  The blob keeps the text after the last dot of the original file
    name as its extension; a file name without a dot is appended whole. *)
Theorem blob_name_extension env n stem ext :
  46%N ∉ ext ->
  blobName_at env n (stem ++ Js.lit "." ++ ext) = token_at env n ++ Js.lit "." ++ ext
  /\ blobName_at env n ext = token_at env n ++ Js.lit "." ++ ext.
Proof.
  intros Hdot. unfold blobName_at, extension_of, Js.pop, Js.split.
  change (Js.lit ".") with [46%N]. split; do 2 f_equal.
  - change (stem ++ [46%N] ++ ext) with (stem ++ 46%N :: ext).
    by rewrite last_split_from.
  - rewrite split_from_none; [done|done|].
    intros j. by apply starts_with_absent.
Qed.

Lemma blob_name_extension_witness :
  (46%N ∉ Js.lit "gz")
  /\ blobName_at quiet 0 (Js.lit "backup.tar.gz") = token_at quiet 0 ++ Js.lit ".gz"
  /\ blobName_at quiet 0 (Js.lit "gz") = token_at quiet 0 ++ Js.lit ".gz".
Proof.
  assert (Hdot : 46%N ∉ Js.lit "gz") by evaluate.
  split; [exact Hdot|].
  exact (blob_name_extension quiet 0 (Js.lit "backup.tar") (Js.lit "gz") Hdot).
Defined.

(** The first two pieces of the split of a text that holds the segment,
    first at [j]. *)
Lemma split_at_first_segment env s j :
  Js.starts_with (container_segment env) (drop j s) = true ->
  (forall k, (k < j)%nat -> Js.starts_with (container_segment env) (drop k s) = false) ->
  let rest := drop (j + length (container_segment env)) s in
  exists k more,
    Js.split s (container_segment env) = take j s :: take k rest :: more
    /\ Js.includes s (CONTAINER_NAME env) = true
    /\ ((length rest <= k)%nat
        \/ Js.starts_with (container_segment env) (drop k rest) = true)
    /\ Js.includes (take k rest) (container_segment env) = false.
Proof.
  intros Hat Hbefore rest.
  assert (Hsep : container_segment env <> []) by by rewrite container_segment_cons.
  assert (Hs : s = take j s ++ container_segment env ++ rest).
  { unfold rest. rewrite <- (take_drop j s) at 1. f_equal.
    rewrite <- drop_drop. by apply starts_with_inv. }
  destruct (split_from_head (container_segment env) rest Hsep)
    as (k & more & Hsplit & Hclean & Hnext).
  exists k, more. split; [|split; [|done]].
  - rewrite split_segment. rewrite Hs at 1.
    rewrite split_from_first; [by rewrite Hsplit|done|].
    intros i Hi. rewrite <- Hs. apply Hbefore. rewrite length_take in Hi. lia.
  - apply (includes_app s _ (take j s ++ [47%N]) ([47%N] ++ rest)).
    rewrite Hs at 1. rewrite container_segment_cons.
    by rewrite <- !app_assoc, <- !app_comm_cons, <- app_assoc.
Qed.



(** X3.  The key [deleteImageFromBlob] works on never holds the
    "/container/" segment, whatever the argument: a blob whose name holds
    the segment cannot be named through this function. *)
Theorem blob_key_never_holds_segment env s :
  Js.includes (blobName_of env s) (container_segment env) = false.
Proof.
  destruct (Js.includes s (container_segment env)) eqn:E.
  - apply first_occurrence in E as (j & Hj & Hbefore).
    destruct (split_at_first_segment env s j Hj Hbefore)
      as (k & more & Hparts & Hname & _ & Hclean).
    unfold blobName_of. by rewrite Hname, Hparts.
  - by rewrite blobName_of_whole.
Qed.

(** In a text whose only slash stands between [a] and [b], the segment
    cannot start past the start. *)
Lemma no_segment_after env (a b : Js.str) k :
  47%N ∉ a -> 47%N ∉ b ->
  Js.starts_with (container_segment env) (drop k (a ++ 47%N :: b)) = false.
Proof.
  intros Ha Hb.
  destruct (Js.starts_with _ (drop k (a ++ 47%N :: b))) eqn:E; [|done]. exfalso.
  rewrite container_segment_cons in E.
  pose proof (starts_with_head _ _ _ E) as Hhead.
  assert (Hk : (a ++ 47%N :: b) !! k = Some 47%N).
  { rewrite <- (Nat.add_0_r k), <- lookup_drop.
    by destruct (drop k (a ++ 47%N :: b)). }
  apply lookup_app_Some in Hk as [Hk|[Hlen Hk]].
  { apply Ha. by eapply list_elem_of_lookup_2. }
  destruct (k - length a)%nat as [|i] eqn:Hi.
  - assert (k = length a) as -> by lia.
    rewrite drop_app_length in E. simpl in E.
    apply Hb. eapply starts_with_elem; [exact E|].
    apply elem_of_app. right. by left.
  - simpl in Hk. apply Hb. by eapply list_elem_of_lookup_2.
Qed.

(** In a segment-free text that ends in "/container", followed by a slash
    and a rest without a slash, the segment occurs once, where that text
    ends. *)
Lemma upload_url_segment env base key :
  Js.includes (base ++ [47%N] ++ CONTAINER_NAME env) (container_segment env) = false ->
  47%N ∉ CONTAINER_NAME env ->
  47%N ∉ key ->
  let s := (base ++ [47%N] ++ CONTAINER_NAME env) ++ [47%N] ++ key in
  s = base ++ container_segment env ++ key
  /\ forall k, Js.starts_with (container_segment env) (drop k s) = true -> k = length base.
Proof.
  intros Hurl Hname Hkey s.
  assert (Hs : s = base ++ container_segment env ++ key).
  { unfold s. rewrite container_segment_cons. simpl. by rewrite <- !app_assoc. }
  split; [exact Hs|].
  intros k Hk. destruct (decide (k < length base)%nat) as [Hlt|Hge].
  - exfalso. pose proof (starts_with_length _ _ Hk) as Hlen.
    rewrite includes_false_iff in Hurl. specialize (Hurl k).
    unfold s in Hk. apply starts_with_within in Hk; [congruence|].
    rewrite container_segment_cons, !length_app. simpl. rewrite length_app. simpl. lia.
  - destruct (decide (k = length base)) as [->|Hne]; [done|]. exfalso.
    assert (Hk' : exists i, k = (length base + 1 + i)%nat)
      by (exists (k - length base - 1)%nat; lia).
    destruct Hk' as [i ->].
    assert (Hdrop : drop (length base + 1 + i) s
                    = drop i (CONTAINER_NAME env ++ 47%N :: key)).
    { unfold s. rewrite <- !app_assoc. rewrite <- drop_drop.
      rewrite <- drop_drop, drop_app_length. done. }
    rewrite Hdrop, no_segment_after in Hk; done.
Qed.

Lemma blobName_of_upload_url env base key :
  Js.includes (base ++ Js.lit "/" ++ CONTAINER_NAME env) (container_segment env) = false ->
  47%N ∉ CONTAINER_NAME env ->
  47%N ∉ key ->
  blobName_of env ((base ++ Js.lit "/" ++ CONTAINER_NAME env) ++ Js.lit "/" ++ key) = key.
Proof.
  intros Hurl Hname Hkey. change (Js.lit "/") with [47%N] in *.
  destruct (upload_url_segment env base key Hurl Hname Hkey) as [Hs Honly].
  rewrite (blobName_of_once env _ (length base)); [|by rewrite Hs, drop_app_length, starts_with_app|done].
  rewrite Hs, <- drop_drop, drop_app_length. by rewrite drop_app_length.
Qed.

(** [uploadImageToBlob] in closed form. *)
Lemma uploadImageToBlob_run env buf name mime w :
  uploadImageToBlob env buf name mime w =
  match containerClient env with
  | None => (Throw (Error (Js.lit "Blob storage client not initialized")), w)
  | Some blockBlobUrl =>
      let n := length (calls w) in
      let key := blobName_at env n name in
      let c := Upload key buf (length buf) mime in
      match fault env n c with
      | Some e => (Throw e, log_call c w)
      | None =>
          (Ok (blockBlobUrl key),
           log_line (Js.lit "Blob was uploaded successfully. requestId: " ++ requestId env n)
             (set_container
                (<[key := {| content := buf; contentType := mime |}]> (container w))
                (log_call c w)))
      end
  end.
Proof.
  run. destruct (containerClient env); [|done].
  cbn zeta. unfold blobName_at, token_at, extension_of.
  rewrite <- !app_assoc. by destruct (fault env _ _).
Qed.

(** X5.  [uploadImageToBlob] never touches the tables.  When it returns,
    it has made one upload call, the container holds the bytes and the
    content type under the blob's name, every other key is as before, and
    the URL returned is the one the client gives the block blob of that
    name.  When it throws, the container and the console are as before. *)
Theorem upload_stores_blob env buf name mime w :
  let out := uploadImageToBlob env buf name mime w in
  let key := blobName_at env (length (calls w)) name in
  Photos out.2 = Photos w /\ Comments out.2 = Comments w
  /\ (forall url, out.1 = Ok url ->
      (exists blockBlobUrl,
          containerClient env = Some blockBlobUrl /\ url = blockBlobUrl key)
      /\ new_calls w out.2 = [Upload key buf (length buf) mime]
      /\ container out.2 !! key = Some {| content := buf; contentType := mime |}
      /\ (forall other, other <> key -> container out.2 !! other = container w !! other))
  /\ (forall e, out.1 = Throw e ->
      container out.2 = container w /\ console out.2 = console w).
Proof.
  cbn zeta. rewrite uploadImageToBlob_run.
  destruct (containerClient env) as [blockBlobUrl|]; cbn zeta.
  - destruct (fault env _ _) as [e|]; cbn.
    + split_and!; try done.
    + split_and!; try done. intros url [= <-]. split_and!.
      * by exists blockBlobUrl.
      * by trace.
      * apply lookup_insert_eq.
      * intros other Hother. by apply lookup_insert_ne.
  - cbn. split_and!; done.
Qed.

Lemma upload_stores_blob_witness :
  (uploadImageToBlob quiet (buffer sunset_jpeg) (originalname sunset_jpeg)
     (mimetype sunset_jpeg) empty_world).1
  = Ok (Js.lit "https://acc.blob.core.windows.net/photos/1700000000000-82mvyr.jpg")
  /\ container
       (uploadImageToBlob quiet (buffer sunset_jpeg) (originalname sunset_jpeg)
          (mimetype sunset_jpeg) empty_world).2
     !! Js.lit "1700000000000-82mvyr.jpg"
     = Some (uploaded sunset_jpeg).
Proof.
  destruct (upload_stores_blob quiet (buffer sunset_jpeg) (originalname sunset_jpeg)
              (mimetype sunset_jpeg) empty_world) as (_ & _ & Hok & _).
  destruct (Hok _ eq_refl) as (_ & _ & Hblob & _).
  split; [vm_compute; reflexivity|exact Hblob].
Defined.

(** X6.  [deleteImageFromBlob] changes nothing but the one key it works
    out: the tables are as before and every other object of the container
    stays, whatever the backend does. *)
Theorem blob_delete_touches_one_key env input w :
  let out := deleteImageFromBlob env input w in
  Photos out.2 = Photos w /\ Comments out.2 = Comments w
  /\ (forall other, other <> blobName_of env input ->
      container out.2 !! other = container w !! other)
  /\ Forall (fun c => c = DeleteIfExists (blobName_of env input)) (new_calls w out.2).
Proof.
  cbn zeta. rewrite deleteImageFromBlob_run.
  destruct (containerClient env); cbn zeta.
  - destruct (fault env _ _); cbn.
    + split_and!; try done. trace. by repeat constructor.
    + split_and!; try done.
      * intros other Hother. by apply lookup_delete_ne.
      * trace. by repeat constructor.
  - cbn. split_and!; try done. by trace.
Qed.

Lemma blob_delete_touches_one_key_witness :
  nested_name <> blobName_of quiet nested_url
  /\ container (deleteImageFromBlob quiet nested_url two_blobs).2 !! nested_name
     = container two_blobs !! nested_name.
Proof.
  assert (Hother : nested_name <> blobName_of quiet nested_url)
    by (vm_compute; discriminate).
  destruct (blob_delete_touches_one_key quiet nested_url two_blobs) as (_ & _ & Hkeep & _).
  split; [exact Hother|exact (Hkeep _ Hother)].
Defined.

(** X4.  What delete makes of the URL of an upload.  When the URL that
    [uploadImageToBlob] returned is a text free of the segment that ends
    in "/container", a slash and a spelling of the name without a slash
    (the container's name holding no slash either), [deleteImageFromBlob]
    works on that spelling and on nothing else.  If the spelling is the
    blob's name and the store performs the delete, the blob is removed;
    if the URL spells the name otherwise, as with an escaped character,
    the uploaded blob stays whatever the store does. *)
Theorem delete_key_of_upload_url env buf name mime w url base text :
  (uploadImageToBlob env buf name mime w).1 = Ok url ->
  url = (base ++ Js.lit "/" ++ CONTAINER_NAME env) ++ Js.lit "/" ++ text ->
  Js.includes (base ++ Js.lit "/" ++ CONTAINER_NAME env) (container_segment env) = false ->
  47%N ∉ CONTAINER_NAME env ->
  47%N ∉ text ->
  let key := blobName_at env (length (calls w)) name in
  let w1 := (uploadImageToBlob env buf name mime w).2 in
  let out := deleteImageFromBlob env url w1 in
  blobName_of env url = text
  /\ Forall (fun c => c = DeleteIfExists text) (new_calls w1 out.2)
  /\ (text = key -> fault env (length (calls w1)) (DeleteIfExists key) = None ->
      container out.2 !! key = None)
  /\ (text <> key ->
      container out.2 !! key = Some {| content := buf; contentType := mime |}).
Proof.
  intros Hup -> Hfree Hname Htext. cbn zeta.
  rewrite deleteImageFromBlob_run, (blobName_of_upload_url env base text Hfree Hname Htext).
  split; [done|]. revert Hup. rewrite uploadImageToBlob_run.
  destruct (containerClient env) as [blockBlobUrl|]; [|done]. cbn zeta.
  destruct (fault env (length (calls w)) _); [done|]. intros _. cbn [snd].
  destruct (fault env _ (DeleteIfExists text)) as [e|] eqn:Hdel.
  - split; [trace; by repeat constructor|]. split.
    + intros ->. cbn [calls log_line set_container] in Hdel |- *. congruence.
    + intros _. cbn. apply lookup_insert_eq.
  - split; [trace; by repeat constructor|]. split.
    + intros -> _. cbn. apply lookup_delete_eq.
    + intros Hne. cbn. rewrite lookup_delete_ne by done. apply lookup_insert_eq.
Qed.

Lemma delete_key_of_upload_url_witness :
  blobName_at quiet 0 (originalname pic_ture) = Js.lit "1700000000000-82mvyr.pic ture"
  /\ (uploadImageToBlob quiet (buffer pic_ture) (originalname pic_ture)
        (mimetype pic_ture) empty_world).1
     = Ok (Js.lit "https://acc.blob.core.windows.net/photos/1700000000000-82mvyr.pic%20ture")
  /\ blobName_of quiet
       (Js.lit "https://acc.blob.core.windows.net/photos/1700000000000-82mvyr.pic%20ture")
     = Js.lit "1700000000000-82mvyr.pic%20ture"
  /\ container
       (deleteImageFromBlob quiet
          (Js.lit "https://acc.blob.core.windows.net/photos/1700000000000-82mvyr.pic%20ture")
          (uploadImageToBlob quiet (buffer pic_ture) (originalname pic_ture)
             (mimetype pic_ture) empty_world).2).2
     !! Js.lit "1700000000000-82mvyr.pic ture" = Some (uploaded pic_ture).
Proof.
  destruct (delete_key_of_upload_url quiet (buffer pic_ture) (originalname pic_ture)
              (mimetype pic_ture) empty_world
              (Js.lit "https://acc.blob.core.windows.net/photos/1700000000000-82mvyr.pic%20ture")
              account (Js.lit "1700000000000-82mvyr.pic%20ture"))
    as (Hkey & _ & _ & Hstays);
    [vm_compute; reflexivity | vm_compute; reflexivity | vm_compute; reflexivity
    | evaluate | evaluate |].
  split; [vm_compute; reflexivity|]. split; [vm_compute; reflexivity|].
  split; [exact Hkey|]. apply Hstays. vm_compute. discriminate.
Defined.

(** The digits [Date.now()] is printed with. *)
Lemma decimal_digits_nilempty d :
  45%N ∉ Js.lit (NilEmpty.string_of_uint d).
Proof.
  unfold Js.lit.
  induction d; simpl; rewrite ?not_elem_of_cons; (split; [done|]) || idtac;
    first [exact IHd | apply not_elem_of_nil].
Qed.

Lemma decimal_digits n : 45%N ∉ Js.decimal n.
Proof.
  unfold Js.decimal, NilZero.string_of_uint.
  destruct (N.to_uint n); try apply decimal_digits_nilempty.
  by apply (bool_decide_unpack _).
Qed.

Lemma lit_inj s t : Js.lit s = Js.lit t -> s = t.
Proof.
  unfold Js.lit. intros H.
  rewrite <- (string_of_list_ascii_of_string s), <- (string_of_list_ascii_of_string t).
  f_equal. revert H. generalize (list_ascii_of_string s) (list_ascii_of_string t).
  induction l as [|a l IH]; intros [|b l']; simpl; try done.
  intros [= Hab Hl]. f_equal; [|by apply IH].
  by rewrite <- (ascii_N_embedding a), <- (ascii_N_embedding b), Hab.
Qed.

Lemma decimal_inj n m : Js.decimal n = Js.decimal m -> n = m.
Proof.
  unfold Js.decimal. intros H%lit_inj.
  assert (Hnil : forall k, N.to_uint k <> Nil).
  { intros k Hk. pose proof (DecimalN.Unsigned.of_to k) as Hof.
    rewrite Hk in Hof. simpl in Hof. subst k. discriminate Hk. }
  apply DecimalN.Unsigned.to_uint_inj.
  pose proof (NilZero.usu _ (Hnil n)) as Hn. pose proof (NilZero.usu _ (Hnil m)) as Hm.
  rewrite H in Hn. congruence.
Qed.

(** Two texts that agree up to their first [c] and beyond agree on what
    comes before it. *)
Lemma cut_at_first {A} (c : A) (a b x y : list A) :
  c ∉ a -> c ∉ b -> a ++ c :: x = b ++ c :: y -> a = b.
Proof.
  revert b. induction a as [|u a IH]; intros [|v b] Ha Hb; simpl; try done.
  - intros [= <- _]. exfalso. apply Hb. by left.
  - intros [= -> _]. exfalso. apply Ha. by left.
  - intros [= -> H]. f_equal. apply (IH b); [| |done].
    + intros ?. apply Ha. by right.
    + intros ?. apply Hb. by right.
Qed.

(** X7.  Blobs uploaded at different readings of [Date.now()] never get
    the same name, whatever the random part and the file names are. *)
Theorem blob_names_differ_in_time env n m name name' :
  now env n <> now env m ->
  blobName_at env n name <> blobName_at env m name'.
Proof.
  intros Hnow Heq. apply Hnow, decimal_inj.
  unfold blobName_at, token_at in Heq. change (Js.lit "-") with [45%N] in Heq.
  rewrite <- !app_assoc in Heq.
  by eapply cut_at_first; [apply decimal_digits|apply decimal_digits|exact Heq].
Qed.

Lemma blob_names_differ_in_time_witness :
  now quiet 0 <> now quiet 2
  /\ blobName_at quiet 0 (Js.lit "sunset.jpg") <> blobName_at quiet 2 (Js.lit "sunset.jpg").
Proof.
  assert (Hnow : now quiet 0 <> now quiet 2) by (vm_compute; discriminate).
  split; [exact Hnow|].
  exact (blob_names_differ_in_time quiet 0 2 _ _ Hnow).
Defined.

(** ** The handlers in closed form *)

Lemma with_pool_run {A} env (m : M A) w :
  (do _ <- await_pool env; m) w =
  match poolPromise env with
  | Connected => m (log_call AwaitPool w)
  | ConnectFailed msg => (Throw (ConnectionError msg), log_call AwaitPool w)
  end.
Proof. unfold bind, await_pool. by destruct (poolPromise env). Qed.

Lemma get_photos_run env w :
  get_photos env w =
  match (do _ <- await_pool env; selectPhotos env) w with
  | (Ok rows, w1) => (answer 200 (photos_ rows), w1)
  | (Throw e, w1) =>
      (answer 500 (error_ (Js.lit "Internal Server Error")),
       log_line (error_line "Error fetching photos:" e) w1)
  end.
Proof.
  unfold get_photos, try_catch, bind, respond, ret, console_error, answer.
  destruct (await_pool env w) as [[[]|e] w1]; [|done].
  by destruct (selectPhotos env w1) as [[rows|e] w2].
Qed.

Lemma get_photos_id_comments_run env id w :
  get_photos_id_comments env id w =
  match (do _ <- await_pool env; selectComments env id) w with
  | (Ok rows, w1) => (answer 200 (comments_ rows), w1)
  | (Throw e, w1) =>
      (answer 500 (error_ (Js.lit "Internal Server Error")),
       log_line (error_line "Error fetching comments:" e) w1)
  end.
Proof.
  unfold get_photos_id_comments, try_catch, bind, respond, ret, console_error, answer.
  destruct (await_pool env w) as [[[]|e] w1]; [|done].
  by destruct (selectComments env id w1) as [[rows|e] w2].
Qed.

Lemma post_photos_run env req w :
  post_photos env req w =
  match file req with
  | None => (answer 400 (error_ (Js.lit "No image file provided")), w)
  | Some f =>
      if present (title req) then
        match uploadImageToBlob env (buffer f) (originalname f) (mimetype f) w with
        | (Throw e, w1) =>
            (answer 500 (error_ (Js.lit "Failed to process request")),
             log_line (error_line "Error uploading photo:" e) w1)
        | (Ok url, w1) =>
            match (do _ <- await_pool env;
                   insertPhoto env (default [] (title req)) (or_null (caption req))
                     (or_null (location req)) url) w1 with
            | (Throw e, w2) =>
                (answer 500 (error_ (Js.lit "Failed to process request")),
                 log_line (error_line "Error uploading photo:" e) w2)
            | (Ok rows, w2) => (answer 201 (photo_ (head rows)), w2)
            end
        end
      else (answer 400 (error_ (Js.lit "Title is required")), w)
  end.
Proof.
  unfold post_photos, try_catch, bind, respond, ret, console_error, answer.
  destruct (file req) as [f|]; [|done].
  destruct (present (title req)); [|done]. cbn [negb].
  destruct (uploadImageToBlob _ _ _ _ w) as [[url|e] w1]; [|done].
  destruct (await_pool env w1) as [[[]|e] w2]; [|done].
  by destruct (insertPhoto _ _ _ _ _ w2) as [[rows|e] w3].
Qed.

Lemma delete_photos_id_run env id w :
  delete_photos_id env id w =
  match (do _ <- await_pool env; selectPhotoImageUrl env id) w with
  | (Throw e, w1) =>
      (answer 500 (error_ (Js.lit "Failed to delete photo")),
       log_line (error_line "Error deleting photo:" e) w1)
  | (Ok [], w1) => (answer 404 (error_ (Js.lit "Photo not found")), w1)
  | (Ok (imageUrl :: _), w1) =>
      let w2 := if present imageUrl
                then (deleteImageFromBlob env (default [] imageUrl) w1).2
                else w1 in
      match deletePhoto env id w2 with
      | (Throw e, w3) =>
          (answer 500 (error_ (Js.lit "Failed to delete photo")),
           log_line (error_line "Error deleting photo:" e) w3)
      | (Ok _, w3) => (answer 200 (message_ (Js.lit "Photo deleted successfully")), w3)
      end
  end.
Proof.
  unfold delete_photos_id, try_catch, bind, respond, ret, console_error, answer.
  destruct (await_pool env w) as [[[]|e] w1]; [|done].
  destruct (selectPhotoImageUrl env id w1) as [[[|imageUrl rows]|e] w2]; [done| |done].
  cbn zeta. destruct (present imageUrl).
  - rewrite deleteImageFromBlob_run.
    destruct (containerClient env); cbn zeta.
    + destruct (fault env _ (DeleteIfExists _)); cbn;
        by destruct (deletePhoto env id _) as [[[]|e] w3].
    + cbn. by destruct (deletePhoto env id _) as [[[]|e] w3].
  - by destruct (deletePhoto env id w2) as [[[]|e] w3].
Qed.

Lemma post_photos_id_comments_run env id text w :
  Js.trim text <> [] ->
  post_photos_id_comments env id (Js.Str text) w =
  match (do _ <- await_pool env; insertComment env id text) w with
  | (Ok rows, w1) => (answer 201 (comment_ (head rows)), w1)
  | (Throw e, w1) =>
      (answer (if bool_decide (err_number e = Some 547) then 404 else 500)
         (error_ (if bool_decide (err_number e = Some 547)
                  then Js.lit "Photo not found" else Js.lit "Failed to add comment")),
       log_line (error_line "Error adding comment:" e) w1)
  end.
Proof.
  intros Htrim. unfold post_photos_id_comments.
  assert (Htruthy : Js.truthy (Js.Str text) = true).
  { destruct text; [|done]. by destruct Htrim. }
  rewrite Htruthy. cbn [negb]. destruct (Js.trim text) as [|c t]; [done|].
  unfold try_catch, bind, respond, ret, console_error, answer.
  destruct (await_pool env w) as [[[]|e] w1].
  - destruct (insertComment env id text w1) as [[rows|e] w2]; [done|].
    by destruct (bool_decide (err_number e = Some 547)).
  - by destruct (bool_decide (err_number e = Some 547)).
Qed.

(** The statements in closed form. *)
Lemma insertPhoto_run env t c l url w :
  insertPhoto env t c l url w =
  let q := Query (InsertPhoto t c l url) in
  match fault env (length (calls w)) q with
  | Some e => (Throw e, log_call q w)
  | None =>
      let r := {| Photo.id := next_photo w; Photo.title := t; Photo.caption := c;
                  Photo.location := l; Photo.image_url := Some url;
                  Photo.created_at := db_now env (S (length (calls w))) |} in
      (Ok [r], bump_photo (set_tables (Photos w ++ [r]) (Comments w) (log_call q w)))
  end.
Proof.
  unfold insertPhoto, backend. cbn zeta. destruct (fault env _ _); [done|].
  cbn. by rewrite length_app, Nat.add_1_r.
Qed.

Lemma insertComment_run env id text w :
  insertComment env id text w =
  let q := Query (InsertComment id text) in
  match fault env (length (calls w)) q with
  | Some e => (Throw e, log_call q w)
  | None =>
      if bool_decide (Exists (fun p => Photo.id p = id) (Photos w)) then
        let r := {| Comment.id := next_comment w; Comment.photo_id := id;
                    Comment.comment_text := text;
                    Comment.created_at := db_now env (S (length (calls w))) |} in
        (Ok [r], bump_comment (set_tables (Photos w) (Comments w ++ [r]) (log_call q w)))
      else (Throw ForeignKeyViolation, log_call q w)
  end.
Proof.
  unfold insertComment, backend. cbn zeta. destruct (fault env _ _); [done|].
  cbn. destruct (bool_decide _); [|done]. by rewrite length_app, Nat.add_1_r.
Qed.

Lemma deletePhoto_run env id w :
  deletePhoto env id w =
  let q := Query (DeletePhoto id) in
  match fault env (length (calls w)) q with
  | Some e => (Throw e, log_call q w)
  | None =>
      (Ok tt,
       set_tables (filter (fun p => Photo.id p <> id) (Photos w))
         (filter (fun c => Comment.photo_id c <> id) (Comments w)) (log_call q w))
  end.
Proof. unfold deletePhoto, backend. cbn zeta. by destruct (fault env _ _). Qed.

Lemma selectPhotoImageUrl_run env id w :
  selectPhotoImageUrl env id w =
  let q := Query (SelectImageUrl id) in
  match fault env (length (calls w)) q with
  | Some e => (Throw e, log_call q w)
  | None =>
      (Ok (Photo.image_url <$> filter (fun p => Photo.id p = id) (Photos w)), log_call q w)
  end.
Proof. unfold selectPhotoImageUrl, backend. cbn zeta. by destruct (fault env _ _). Qed.

Lemma selectPhotos_run env w :
  selectPhotos env w =
  match fault env (length (calls w)) (Query SelectPhotos) with
  | Some e => (Throw e, log_call (Query SelectPhotos) w)
  | None => (Ok (merge_sort newest_first (Photos w)), log_call (Query SelectPhotos) w)
  end.
Proof. unfold selectPhotos, backend. by destruct (fault env _ _). Qed.

Lemma selectComments_run env id w :
  selectComments env id w =
  let q := Query (SelectComments id) in
  match fault env (length (calls w)) q with
  | Some e => (Throw e, log_call q w)
  | None =>
      (Ok (merge_sort newest_comment_first
             (filter (fun c => Comment.photo_id c = id) (Comments w))), log_call q w)
  end.
Proof. unfold selectComments, backend. cbn zeta. by destruct (fault env _ _). Qed.

(** ** Create-photo, further *)

(** X8.  A 201 from POST /photos means: the row returned carries the
    next identity value, the title as sent and, as [image_url], the URL
    the client gives the block blob of the generated name, which is the
    text the INSERT binds; the container holds the file's bytes and
    content type under that name; the calls made are the upload, the pool
    and the insert, in this order; no comment is touched. *)
Theorem create_returns_stored_photo env req w resp w' :
  post_photos env req w = (Ok resp, w') ->
  status resp = 201 ->
  exists f blockBlobUrl row,
    let key := blobName_at env (length (calls w)) (originalname f) in
    file req = Some f /\ containerClient env = Some blockBlobUrl
    /\ body resp = photo_ (Some row)
    /\ Photo.id row = next_photo w /\ next_photo w' = next_photo w + 1
    /\ title req = Some (Photo.title row)
    /\ Photo.image_url row = Some (blockBlobUrl key)
    /\ container w' !! key = Some (uploaded f)
    /\ Comments w' = Comments w
    /\ new_calls w w'
       = [Upload key (buffer f) (length (buffer f)) (mimetype f); AwaitPool;
          Query (InsertPhoto (Photo.title row) (Photo.caption row) (Photo.location row)
                   (blockBlobUrl key))].
Proof.
  rewrite post_photos_run.
  destruct (file req) as [f|]; [|by intros [= <- <-]].
  destruct (present (title req)) eqn:Ht; [|by intros [= <- <-]].
  rewrite uploadImageToBlob_run.
  destruct (containerClient env) as [blockBlobUrl|]; [|by intros [= <- <-]].
  cbn zeta. destruct (fault env _ _); [by intros [= <- <-]|].
  rewrite with_pool_run. destruct (poolPromise env); [|by intros [= <- <-]].
  rewrite insertPhoto_run. cbn zeta.
  destruct (fault env _ _); [by intros [= <- <-]|].
  intros [= <- <-] _. eexists f, blockBlobUrl, _. cbn.
  split_and!; try done.
  - destruct (title req) as [[|c t]|]; done.
  - apply lookup_insert_eq.
  - by trace.
Qed.

Lemma create_returns_stored_photo_witness :
  exists row,
    (post_photos quiet sunset empty_world).1 = answer 201 (photo_ (Some row))
    /\ Photo.id row = 1
    /\ Photo.image_url row
       = Some (Js.lit "https://acc.blob.core.windows.net/photos/1700000000000-82mvyr.jpg")
    /\ container one_photo !! Js.lit "1700000000000-82mvyr.jpg" = Some (uploaded sunset_jpeg).
Proof.
  edestruct (create_returns_stored_photo quiet sunset empty_world) as
    (f & base & row & Hf & Hbase & Hbody & Hid & _ & _ & Hurl & Hblob & _);
    [vm_compute; reflexivity | reflexivity |].
  injection Hf as <-. injection Hbase as <-. cbn in Hbody. injection Hbody as <-.
  eexists. split; [vm_compute; reflexivity|]. split; [exact Hid|].
  split; [exact Hurl|exact Hblob].
Defined.

(** X9.  No rollback: when the upload went through and the steps after
    it throw (the pool is rejected, or the insert fails), POST /photos
    answers 500, writes no row, and the blob stays in the container with
    no row pointing at it; no delete is attempted. *)
Theorem create_failure_keeps_blob env req w f url w1 e w2 :
  file req = Some f ->
  present (title req) = true ->
  uploadImageToBlob env (buffer f) (originalname f) (mimetype f) w = (Ok url, w1) ->
  (do _ <- await_pool env;
   insertPhoto env (default [] (title req)) (or_null (caption req))
     (or_null (location req)) url) w1 = (Throw e, w2) ->
  let out := post_photos env req w in
  out.1 = answer 500 (error_ (Js.lit "Failed to process request"))
  /\ Photos out.2 = Photos w /\ Comments out.2 = Comments w
  /\ container out.2 !! blobName_at env (length (calls w)) (originalname f)
     = Some (uploaded f)
  /\ existsb is_blob_delete (new_calls w out.2) = false.
Proof.
  intros Hf Ht Hup Hins. cbn zeta.
  rewrite post_photos_run, Hf, Ht, Hup, Hins. cbn [fst snd].
  revert Hup Hins. rewrite uploadImageToBlob_run.
  destruct (containerClient env) as [base|]; [|done]. cbn zeta.
  destruct (fault env _ _); [done|]. intros [= <- <-].
  rewrite with_pool_run. destruct (poolPromise env).
  - rewrite insertPhoto_run. cbn zeta. destruct (fault env _ _); [|done].
    intros [= <- <-]. cbn. split_and!; try done; [apply lookup_insert_eq|by trace].
  - intros [= <- <-]. cbn. split_and!; try done; [apply lookup_insert_eq|by trace].
Qed.

Lemma create_failure_keeps_blob_witness :
  (post_photos pool_down sunset empty_world).1
  = answer 500 (error_ (Js.lit "Failed to process request"))
  /\ Photos (post_photos pool_down sunset empty_world).2 = []
  /\ container (post_photos pool_down sunset empty_world).2
     !! Js.lit "1700000000000-82mvyr.jpg" = Some (uploaded sunset_jpeg).
Proof.
  edestruct (create_failure_keeps_blob pool_down sunset empty_world sunset_jpeg)
    as (Hresp & Hrows & _ & Hblob & _);
    [reflexivity | reflexivity | vm_compute; reflexivity | vm_compute; reflexivity |].
  split; [exact Hresp|]. split; [exact Hrows|exact Hblob].
Defined.

(** ** Delete-photo, further *)

Lemma filter_keeps_all {A} (P : A -> Prop) `{!forall x, Decision (P x)} (l : list A) :
  Forall P l -> filter P l = l.
Proof.
  induction 1 as [|x l Hx _ IH]; [done|].
  by rewrite filter_cons_True, IH.
Qed.

Lemma filter_comment_none id (l : list Comment.row) :
  Forall (fun c => Comment.photo_id c <> id) l ->
  filter (fun c => Comment.photo_id c = id) l = [].
Proof.
  induction 1 as [|c l Hc _ IH]; [done|].
  rewrite filter_cons_False; done.
Qed.

Lemma deleteImageFromBlob_tables env input w :
  Photos (deleteImageFromBlob env input w).2 = Photos w
  /\ Comments (deleteImageFromBlob env input w).2 = Comments w
  /\ next_photo (deleteImageFromBlob env input w).2 = next_photo w
  /\ next_comment (deleteImageFromBlob env input w).2 = next_comment w.
Proof.
  rewrite deleteImageFromBlob_run.
  destruct (containerClient env); cbn zeta; [|done].
  by destruct (fault env _ _).
Qed.



(** X11.  After a DELETE /photos/:id that answered 200, with the store
    answering, the photo is gone for every route: a second delete
    answers 404 and changes nothing, a comment on it is answered 404 and
    not stored, and its list of comments is empty, with status 200. *)
Theorem deleted_photo_is_gone env id w :
  never_fails env ->
  (delete_photos_id env id w).1
  = answer 200 (message_ (Js.lit "Photo deleted successfully")) ->
  let w1 := (delete_photos_id env id w).2 in
  let again := delete_photos_id env id w1 in
  again.1 = answer 404 (error_ (Js.lit "Photo not found"))
  /\ Photos again.2 = Photos w1 /\ Comments again.2 = Comments w1
  /\ container again.2 = container w1
  /\ (forall text, Js.trim text <> [] ->
      (post_photos_id_comments env id (Js.Str text) w1).1
      = answer 404 (error_ (Js.lit "Photo not found"))
      /\ Comments (post_photos_id_comments env id (Js.Str text) w1).2 = Comments w1)
  /\ (get_photos_id_comments env id w1).1 = answer 200 (comments_ []).
Proof.
  intros [Hpool Hfault]. cbn zeta.
  assert (Hgone : (delete_photos_id env id w).1
                  = answer 200 (message_ (Js.lit "Photo deleted successfully")) ->
          Photos (delete_photos_id env id w).2
          = filter (fun p => Photo.id p <> id) (Photos w)
          /\ Comments (delete_photos_id env id w).2
             = filter (fun c => Comment.photo_id c <> id) (Comments w)).
  { rewrite delete_photos_id_run, with_pool_run, Hpool, selectPhotoImageUrl_run.
    cbn zeta. rewrite Hfault. cbn [Photos log_call].
    destruct (filter _ (Photos w)) as [|p l]; [done|]. cbn [fmap list_fmap].
    rewrite deletePhoto_run. cbn zeta. rewrite Hfault. cbn [fst snd].
    intros _. cbn [Photos Comments set_tables].
    destruct (present _); [|done].
    destruct (deleteImageFromBlob_tables env (default [] (Photo.image_url p))
                (log_call (Query (SelectImageUrl id)) (log_call AwaitPool w)))
      as (-> & -> & _). done. }
  intros Hok. destruct (Hgone Hok) as [Hphotos Hcomments]. clear Hgone Hok.
  set (w1 := (delete_photos_id env id w).2) in *.
  assert (Hnone : filter (fun p => Photo.id p = id) (Photos w1) = []).
  { rewrite Hphotos. apply filter_id_none, forall_filter_ne_photo. }
  assert (Hnoc : filter (fun c => Comment.photo_id c = id) (Comments w1) = []).
  { rewrite Hcomments. apply filter_comment_none, forall_filter_ne_comment. }
  assert (Hmiss : bool_decide (Exists (fun p => Photo.id p = id) (Photos w1)) = false).
  { apply bool_decide_eq_false. intros (p & Hp & Hid)%Exists_exists.
    assert (p ∈ filter (fun p => Photo.id p = id) (Photos w1)) by by apply list_elem_of_filter.
    rewrite Hnone in H. by apply elem_of_nil in H. }
  split_and!.
  - rewrite delete_photos_id_run, with_pool_run, Hpool, selectPhotoImageUrl_run.
    cbn zeta. rewrite Hfault. cbn [Photos log_call]. by rewrite Hnone.
  - rewrite delete_photos_id_run, with_pool_run, Hpool, selectPhotoImageUrl_run.
    cbn zeta. rewrite Hfault. cbn [Photos log_call]. by rewrite Hnone.
  - rewrite delete_photos_id_run, with_pool_run, Hpool, selectPhotoImageUrl_run.
    cbn zeta. rewrite Hfault. cbn [Photos log_call]. by rewrite Hnone.
  - rewrite delete_photos_id_run, with_pool_run, Hpool, selectPhotoImageUrl_run.
    cbn zeta. rewrite Hfault. cbn [Photos log_call]. by rewrite Hnone.
  - intros text Htext.
    rewrite (post_photos_id_comments_run _ _ _ _ Htext), with_pool_run, Hpool,
      insertComment_run.
    cbn zeta. rewrite Hfault. cbn [Photos log_call]. by rewrite Hmiss.
  - rewrite get_photos_id_comments_run, with_pool_run, Hpool, selectComments_run.
    cbn zeta. rewrite Hfault. cbn [Comments log_call]. by rewrite Hnoc.
Qed.

Lemma deleted_photo_is_gone_witness :
  never_fails quiet
  /\ (delete_photos_id quiet 1 (delete_photos_id quiet 1 one_photo).2).1
     = answer 404 (error_ (Js.lit "Photo not found"))
  /\ (get_photos_id_comments quiet 1 (delete_photos_id quiet 1 one_photo).2).1
     = answer 200 (comments_ []).
Proof.
  assert (Hquiet : never_fails quiet) by (split; [reflexivity|intros n c; reflexivity]).
  destruct (deleted_photo_is_gone quiet 1 one_photo Hquiet) as (Hagain & _ & _ & _ & _ & Hlist).
  { vm_compute. reflexivity. }
  split; [exact Hquiet|]. split; [exact Hagain|exact Hlist].
Defined.

(** X12.  Create, then delete.  Both stores answer; the URL the client
    gives the uploaded blob is a text free of the segment that ends in
    "/container", a slash and a spelling of the blob's name without a
    slash, the container's name holding no slash either; no row or
    comment already uses the next identity value.  Then POST /photos
    answers 201, deleting the photo just created answers 200 and leaves
    the tables as they were before the upload, and the one blob delete
    names the spelling.  If the URL spells the name as it is, the
    container is left without the blob: no orphan, no dangling row.  If
    it spells it otherwise, as with an escaped character, the row is gone
    and the uploaded blob stays. *)
Theorem create_then_delete env req w f blockBlobUrl base text :
  never_fails env ->
  file req = Some f -> present (title req) = true ->
  containerClient env = Some blockBlobUrl ->
  blockBlobUrl (blobName_at env (length (calls w)) (originalname f))
  = (base ++ Js.lit "/" ++ CONTAINER_NAME env) ++ Js.lit "/" ++ text ->
  Js.includes (base ++ Js.lit "/" ++ CONTAINER_NAME env) (container_segment env) = false ->
  47%N ∉ CONTAINER_NAME env ->
  47%N ∉ text ->
  Forall (fun p => Photo.id p <> next_photo w) (Photos w) ->
  Forall (fun c => Comment.photo_id c <> next_photo w) (Comments w) ->
  let key := blobName_at env (length (calls w)) (originalname f) in
  let created := post_photos env req w in
  let out := delete_photos_id env (next_photo w) created.2 in
  (exists row, created.1 = answer 201 (photo_ (Some row)) /\ Photo.id row = next_photo w)
  /\ out.1 = answer 200 (message_ (Js.lit "Photo deleted successfully"))
  /\ Photos out.2 = Photos w /\ Comments out.2 = Comments w
  /\ filter is_blob_delete (new_calls created.2 out.2) = [DeleteIfExists text]
  /\ (text = key -> container out.2 = delete key (container w))
  /\ (text <> key -> container out.2 !! key = Some (uploaded f)).
Proof.
  intros [Hpool Hfault] Hf Ht Hclient Hspelled Hurl Hname Htext Hrows Hcomments. cbn zeta.
  revert Hspelled.
  set (key := blobName_at env (length (calls w)) (originalname f)) in *.
  intros Hspelled.
  rewrite post_photos_run, Hf, Ht, uploadImageToBlob_run, Hclient. cbn zeta.
  rewrite Hfault, with_pool_run, Hpool, insertPhoto_run. cbn zeta. rewrite Hfault.
  cbn [fst snd head].
  split; [by eexists|].
  rewrite delete_photos_id_run, with_pool_run, Hpool, selectPhotoImageUrl_run.
  cbn zeta. rewrite Hfault.
  cbn [Photos Comments next_photo container log_call log_line set_container bump_photo
       set_tables].
  rewrite filter_app, (filter_id_none _ _ Hrows).
  rewrite filter_cons_True by done. cbn [filter list_filter app fmap list_fmap Photo.image_url].
  assert (Hpresent : forall s : Js.str,
    present (Some ((base ++ Js.lit "/" ++ CONTAINER_NAME env) ++ Js.lit "/" ++ s)) = true).
  { intros s. by destruct base. }
  fold key. rewrite Hspelled, Hpresent. cbn [default from_option id].
  rewrite deleteImageFromBlob_run, Hclient. cbn zeta. rewrite Hfault.
  rewrite (blobName_of_upload_url env base text Hurl Hname Htext).
  cbn [snd]. rewrite deletePhoto_run. cbn zeta. rewrite Hfault. cbn [fst snd].
  split; [done|].
  cbn [Photos Comments next_photo container log_call log_line set_container bump_photo
       set_tables].
  split_and!.
  - rewrite filter_app, (filter_keeps_all _ _ Hrows).
    rewrite filter_cons_False by (cbn; intros H; by apply H). by rewrite app_nil_r.
  - by apply filter_keeps_all.
  - by trace.
  - intros ->. apply delete_insert_eq.
  - intros Hne. rewrite lookup_delete_ne by done. apply lookup_insert_eq.
Qed.

Lemma create_then_delete_witness :
  never_fails quiet
  /\ (delete_photos_id quiet 1 one_photo).1
     = answer 200 (message_ (Js.lit "Photo deleted successfully"))
  /\ Photos (delete_photos_id quiet 1 one_photo).2 = []
  /\ container (delete_photos_id quiet 1 one_photo).2
     = delete (blobName_at quiet 0 (originalname sunset_jpeg)) ∅
  /\ Photos (delete_photos_id quiet 1 (post_photos quiet holiday empty_world).2).2 = []
  /\ container (delete_photos_id quiet 1 (post_photos quiet holiday empty_world).2).2
     !! Js.lit "1700000000000-82mvyr.pic ture" = Some (uploaded pic_ture).
Proof.
  assert (Hquiet : never_fails quiet) by (split; [reflexivity|intros n c; reflexivity]).
  destruct (create_then_delete quiet sunset empty_world sunset_jpeg
              (fun name => Js.lit "https://acc.blob.core.windows.net/photos/" ++ spelled name)
              account (Js.lit "1700000000000-82mvyr.jpg") Hquiet)
    as (_ & Hresp & Hrows & _ & _ & Hblobs & _);
    [reflexivity | reflexivity | reflexivity | vm_compute; reflexivity
    | vm_compute; reflexivity | evaluate | evaluate | constructor | constructor |].
  destruct (create_then_delete quiet holiday empty_world pic_ture
              (fun name => Js.lit "https://acc.blob.core.windows.net/photos/" ++ spelled name)
              account (Js.lit "1700000000000-82mvyr.pic%20ture") Hquiet)
    as (_ & _ & Hrows' & _ & _ & _ & Hstays);
    [reflexivity | reflexivity | reflexivity | vm_compute; reflexivity
    | vm_compute; reflexivity | evaluate | evaluate | constructor | constructor |].
  split; [exact Hquiet|]. split; [exact Hresp|]. split; [exact Hrows|].
  split; [apply Hblobs; vm_compute; reflexivity|]. split; [exact Hrows'|].
  apply Hstays. vm_compute. discriminate.
Defined.

(** ** Comments, further *)

#[local] Instance newest_comment_first_total : Total newest_comment_first.
Proof. intros a b. unfold newest_comment_first. lia. Qed.

#[local] Instance newest_comment_first_trans : Transitive newest_comment_first.
Proof. intros a b c. unfold newest_comment_first. lia. Qed.

(** X13.  With the pool connected and the statement answered, GET
    /photos/:id/comments responds 200 with exactly the comments whose
    [photo_id] is the id, each at least as recent as those after it; for
    an id without comments, a photo or not, the list is empty and the
    status still 200. *)
Theorem comments_newest_first env id w :
  poolPromise env = Connected ->
  (forall n, fault env n (Query (SelectComments id)) = None) ->
  exists rows w',
    get_photos_id_comments env id w = (answer 200 (comments_ rows), w')
    /\ rows ≡ₚ filter (fun c => Comment.photo_id c = id) (Comments w)
    /\ (forall c, c ∈ rows <-> c ∈ Comments w /\ Comment.photo_id c = id)
    /\ StronglySorted newest_comment_first rows
    /\ (Forall (fun c => Comment.photo_id c <> id) (Comments w) -> rows = []).
Proof.
  intros Hpool Hsel.
  rewrite get_photos_id_comments_run, with_pool_run, Hpool, selectComments_run.
  cbn zeta. rewrite Hsel. cbn [Comments log_call].
  eexists _, _. split; [done|].
  assert (Hperm : merge_sort newest_comment_first
                    (filter (fun c => Comment.photo_id c = id) (Comments w))
                  ≡ₚ filter (fun c => Comment.photo_id c = id) (Comments w))
    by apply merge_sort_Permutation.
  split_and!.
  - done.
  - intros c. rewrite Hperm, list_elem_of_filter. tauto.
  - apply (StronglySorted_merge_sort _).
  - intros Hnone. by rewrite (filter_comment_none _ _ Hnone).
Qed.

Lemma comments_newest_first_witness :
  exists rows w',
    get_photos_id_comments quiet 1 one_comment = (answer 200 (comments_ rows), w')
    /\ Comment.comment_text <$> rows = [Js.lit " Nice! "]
    /\ (get_photos_id_comments quiet 7 one_comment).1 = answer 200 (comments_ []).
Proof.
  destruct (comments_newest_first quiet 1 one_comment eq_refl (fun _ => eq_refl))
    as (rows & w' & Hget & _).
  destruct (comments_newest_first quiet 7 one_comment eq_refl (fun _ => eq_refl))
    as (rows7 & w7 & Hget7 & _ & _ & _ & Hnone).
  exists rows, w'. split; [exact Hget|]. split.
  - vm_compute in Hget. by injection Hget as <- _.
  - rewrite Hget7. cbn [fst]. rewrite Hnone; [reflexivity|]. evaluate.
Defined.

(** X14.  POST /photos/:id/comments answers 400 exactly when
    [comment_text] is falsy or a string of white space only; in that case
    nothing else happens.  A string with one code unit that [trim] keeps
    is never answered 400. *)
Theorem comment_rejected_iff env id v w :
  ((post_photos_id_comments env id v w).1
     = answer 400 (error_ (Js.lit "Comment text cannot be empty"))
   <-> Js.truthy v = false \/ exists s, v = Js.Str s /\ forallb Js.is_white s = true)
  /\ (forall r, (post_photos_id_comments env id v w).1 = Ok r -> status r = 400 ->
      (post_photos_id_comments env id v w).2 = w).
Proof.
  destruct (Js.truthy v) eqn:Htruthy.
  2:{ unfold post_photos_id_comments. rewrite Htruthy. cbn. split; [|done].
      split; [by left|done]. }
  destruct v as [| |b|n|s|]; try done.
  - unfold post_photos_id_comments. rewrite Htruthy. cbn.
    split; [|done]. split; [done|]. intros [|(s & ? & _)]; done.
  - unfold post_photos_id_comments. rewrite Htruthy. cbn.
    split; [|done]. split; [done|]. intros [|(s & ? & _)]; done.
  - destruct (Js.trim s) as [|c t] eqn:Htrim.
    + unfold post_photos_id_comments. rewrite Htruthy, Htrim. cbn.
      split; [|done]. split; [intros _|done]. right. exists s. split; [done|].
      by apply trim_nil_inv.
    + assert (Hink : Js.trim s <> []) by by rewrite Htrim.
      rewrite (post_photos_id_comments_run _ _ _ _ Hink).
      destruct ((do _ <- await_pool env; insertComment env id s) w) as [[rows|e] w1].
      * split; [|by intros r [= <-]]. split; [done|].
        intros [|(s' & [= <-] & Hs)]; [done|]. apply trim_white in Hs. congruence.
      * split; [|intros r [= <-]; by destruct (bool_decide _)].
        split; [by destruct (bool_decide _)|].
        intros [|(s' & [= <-] & Hs)]; [done|]. apply trim_white in Hs. congruence.
  - unfold post_photos_id_comments. rewrite Htruthy. cbn.
    split; [|done]. split; [done|]. intros [|(s & ? & _)]; done.
Qed.

Lemma comment_rejected_iff_witness :
  forallb Js.is_white (Js.lit "5") = false
  /\ (post_photos_id_comments quiet 1 (Js.Str (Js.lit "5")) one_photo).1
     <> answer 400 (error_ (Js.lit "Comment text cannot be empty"))
  /\ (post_photos_id_comments quiet 1 (Js.Num 0) one_photo).1
     = answer 400 (error_ (Js.lit "Comment text cannot be empty")).
Proof.
  destruct (comment_rejected_iff quiet 1 (Js.Str (Js.lit "5")) one_photo) as [[Hif _] _].
  destruct (comment_rejected_iff quiet 1 (Js.Num 0) one_photo) as [[_ Honly] _].
  split; [vm_compute; reflexivity|]. split.
  - intros H. destruct (Hif H) as [Hf|(s & Hs & Hw)]; [discriminate Hf|].
    injection Hs as <-. vm_compute in Hw. discriminate Hw.
  - apply Honly. left. reflexivity.
Defined.

(** X15.  A comment on an existing photo, with the store answering: the
    answer is 201 with a row that carries the photo's id, the next
    identity value and the text exactly as sent (it is tested trimmed but
    stored untrimmed); the row is appended to Comments; and the list of
    the photo's comments then holds it, besides the comments the photo
    had. *)
Theorem comment_then_listed env id text w :
  never_fails env ->
  Js.trim text <> [] ->
  Exists (fun p => Photo.id p = id) (Photos w) ->
  exists row w1 rows w2,
    post_photos_id_comments env id (Js.Str text) w = (answer 201 (comment_ (Some row)), w1)
    /\ Comment.photo_id row = id /\ Comment.comment_text row = text
    /\ Comment.id row = next_comment w
    /\ Comments w1 = Comments w ++ [row] /\ Photos w1 = Photos w
    /\ container w1 = container w
    /\ get_photos_id_comments env id w1 = (answer 200 (comments_ rows), w2)
    /\ (forall c, c ∈ rows <-> c = row \/ (c ∈ Comments w /\ Comment.photo_id c = id)).
Proof.
  intros [Hpool Hfault] Htext Hphoto.
  rewrite (post_photos_id_comments_run _ _ _ _ Htext), with_pool_run, Hpool,
    insertComment_run.
  cbn zeta. rewrite Hfault. cbn [Photos log_call].
  rewrite (bool_decide_eq_true_2 _ Hphoto). cbn [head].
  eexists _, _, _, _. split; [reflexivity|]. cbn.
  rewrite get_photos_id_comments_run, with_pool_run, Hpool, selectComments_run.
  cbn zeta. rewrite Hfault. cbn [Comments log_call bump_comment set_tables].
  split_and!; try done.
  intros c. rewrite merge_sort_Permutation, list_elem_of_filter, elem_of_app, list_elem_of_singleton.
  split.
  - intros [Hid [Hc| ->]]; [by right|by left].
  - intros [->|[Hc Hid]]; [split; [done|by right]|split; [done|by left]].
Qed.

Lemma comment_then_listed_witness :
  never_fails quiet
  /\ Js.trim (Js.lit " Nice! ") <> []
  /\ exists row rows,
       (post_photos_id_comments quiet 1 (Js.Str (Js.lit " Nice! ")) one_photo).1
       = answer 201 (comment_ (Some row))
       /\ Comment.comment_text row = Js.lit " Nice! "
       /\ (get_photos_id_comments quiet 1 one_comment).1 = answer 200 (comments_ rows)
       /\ row ∈ rows.
Proof.
  assert (Hquiet : never_fails quiet) by (split; [reflexivity|intros n c; reflexivity]).
  assert (Htext : Js.trim (Js.lit " Nice! ") <> []) by (vm_compute; discriminate).
  destruct (comment_then_listed quiet 1 (Js.lit " Nice! ") one_photo Hquiet Htext)
    as (row & w1 & rows & w2 & Hpost & _ & Htxt & _ & _ & _ & _ & Hget & Hin).
  { evaluate. }
  split; [exact Hquiet|]. split; [exact Htext|]. exists row, rows.
  split; [by rewrite Hpost|]. split; [exact Htxt|].
  assert (Hw1 : w1 = one_comment) by (unfold one_comment; by rewrite Hpost).
  rewrite <- Hw1, Hget. split; [reflexivity|]. apply Hin. by left.
Defined.

(** ** All the routes *)

Lemma reads_same_stores env w :
  same_stores w (get_photos env w).2
  /\ forall id, same_stores w (get_photos_id_comments env id w).2.
Proof.
  split; [|intros id].
  - rewrite get_photos_run, with_pool_run. destruct (poolPromise env); [|done].
    rewrite selectPhotos_run. by destruct (fault env _ _).
  - rewrite get_photos_id_comments_run, with_pool_run. destruct (poolPromise env); [|done].
    rewrite selectComments_run. cbn zeta. by destruct (fault env _ _).
Qed.

(** X16.  The two GET routes only read: whatever the backends do, the
    tables, their identity counters and the container are as before, the
    object store is not called, and the answer is 200 or 500 "Internal
    Server Error". *)
Theorem reads_change_nothing env w :
  (same_stores w (get_photos env w).2
   /\ forallb (fun c => negb (is_object_store c)) (new_calls w (get_photos env w).2) = true
   /\ ((exists rows, (get_photos env w).1 = answer 200 (photos_ rows))
       \/ (get_photos env w).1 = answer 500 (error_ (Js.lit "Internal Server Error"))))
  /\ (forall id,
      same_stores w (get_photos_id_comments env id w).2
      /\ forallb (fun c => negb (is_object_store c))
           (new_calls w (get_photos_id_comments env id w).2) = true
      /\ ((exists rows, (get_photos_id_comments env id w).1 = answer 200 (comments_ rows))
          \/ (get_photos_id_comments env id w).1
             = answer 500 (error_ (Js.lit "Internal Server Error")))).
Proof.
  split; [|intros id].
  - rewrite get_photos_run, with_pool_run. destruct (poolPromise env).
    + rewrite selectPhotos_run. destruct (fault env _ _); cbn.
      * split; [done|]. split; [by trace|by right].
      * split; [done|]. split; [by trace|left; by eexists].
    + cbn. split; [done|]. split; [by trace|by right].
  - rewrite get_photos_id_comments_run, with_pool_run. destruct (poolPromise env).
    + rewrite selectComments_run. cbn zeta. destruct (fault env _ _); cbn.
      * split; [done|]. split; [by trace|by right].
      * split; [done|]. split; [by trace|left; by eexists].
    + cbn. split; [done|]. split; [by trace|by right].
Qed.

(** X17.  No error escapes the routes, but for one: GET /photos, POST
    /photos, DELETE /photos/:id and GET /photos/:id/comments answer in
    every case, with one of their statuses; POST /photos/:id/comments
    throws, before any call and leaving no answer, exactly when
    [comment_text] is truthy and not a string, and otherwise answers 201,
    400, 404 or 500. *)
Theorem routes_always_respond env w :
  (exists r, (get_photos env w).1 = Ok r /\ (status r = 200 \/ status r = 500))
  /\ (forall req, exists r,
        (post_photos env req w).1 = Ok r
        /\ (status r = 201 \/ status r = 400 \/ status r = 500))
  /\ (forall id, exists r,
        (delete_photos_id env id w).1 = Ok r
        /\ (status r = 200 \/ status r = 404 \/ status r = 500))
  /\ (forall id, exists r,
        (get_photos_id_comments env id w).1 = Ok r /\ (status r = 200 \/ status r = 500))
  /\ (forall id v,
        ((exists e, post_photos_id_comments env id v w = (Throw e, w))
         <-> Js.truthy v = true /\ forall s, v <> Js.Str s)
        /\ ((exists e, (post_photos_id_comments env id v w).1 = Throw e)
            \/ exists r, (post_photos_id_comments env id v w).1 = Ok r
                         /\ (status r = 201 \/ status r = 400
                             \/ status r = 404 \/ status r = 500))).
Proof.
  split_and!.
  - rewrite get_photos_run.
    destruct ((do _ <- await_pool env; selectPhotos env) w) as [[rows|e] w1];
      eexists; (split; [reflexivity|]); cbn; auto.
  - intros req. rewrite post_photos_run.
    destruct (file req) as [f|]; [|eexists; split; [reflexivity|]; cbn; auto].
    destruct (present (title req)); [|eexists; split; [reflexivity|]; cbn; auto].
    destruct (uploadImageToBlob _ _ _ _ w) as [[url|e] w1];
      [|eexists; split; [reflexivity|]; cbn; auto].
    destruct ((do _ <- await_pool env; insertPhoto _ _ _ _ _) w1) as [[rows|e] w2];
      eexists; (split; [reflexivity|]); cbn; auto.
  - intros id. rewrite delete_photos_id_run.
    destruct ((do _ <- await_pool env; selectPhotoImageUrl env id) w)
      as [[[|url rows]|e] w1]; [eexists; split; [reflexivity|]; cbn; auto| |
                                eexists; split; [reflexivity|]; cbn; auto].
    cbn zeta. destruct (deletePhoto env id _) as [[[]|e] w3];
      eexists; (split; [reflexivity|]); cbn; auto.
  - intros id. rewrite get_photos_id_comments_run.
    destruct ((do _ <- await_pool env; selectComments env id) w) as [[rows|e] w1];
      eexists; (split; [reflexivity|]); cbn; auto.
  - intros id v. destruct (Js.truthy v) eqn:Htruthy.
    2:{ unfold post_photos_id_comments. rewrite Htruthy. cbn. split.
        - split; [by intros [e ?]|by intros [? _]].
        - right. eexists. split; [reflexivity|]. cbn. auto. }
    destruct v as [| |b|n|s|]; try done.
    + unfold post_photos_id_comments. rewrite Htruthy. cbn. split; [|left; by eexists].
      split; [done|]. intros _. by eexists.
    + unfold post_photos_id_comments. rewrite Htruthy. cbn. split; [|left; by eexists].
      split; [done|]. intros _. by eexists.
    + assert (Hstr : (exists e, post_photos_id_comments env id (Js.Str s) w = (Throw e, w))
                     <-> true = true /\ forall s', Js.Str s <> Js.Str s').
      { split; [|intros [_ H]; by destruct (H s)].
        intros [e He]. exfalso. revert He.
        destruct (Js.trim s) as [|c t] eqn:Htrim.
        - unfold post_photos_id_comments. by rewrite Htruthy, Htrim.
        - rewrite post_photos_id_comments_run by by rewrite Htrim.
          destruct ((do _ <- await_pool env; insertComment env id s) w) as [[rows|e'] w1];
            done. }
      split; [exact Hstr|]. right.
      destruct (Js.trim s) as [|c t] eqn:Htrim.
      * unfold post_photos_id_comments. rewrite Htruthy, Htrim. cbn.
        eexists. split; [reflexivity|]. cbn. auto.
      * rewrite post_photos_id_comments_run by by rewrite Htrim.
        destruct ((do _ <- await_pool env; insertComment env id s) w) as [[rows|e'] w1].
        -- eexists. split; [reflexivity|]. cbn. auto.
        -- eexists. split; [reflexivity|]. cbn. destruct (bool_decide _); auto.
    + unfold post_photos_id_comments. rewrite Htruthy. cbn. split; [|left; by eexists].
      split; [done|]. intros _. by eexists.
Qed.

Lemma routes_always_respond_witness :
  Js.truthy (Js.Num 5) = true
  /\ exists e, post_photos_id_comments quiet 1 (Js.Num 5) one_photo = (Throw e, one_photo).
Proof.
  destruct (routes_always_respond quiet one_photo) as (_ & _ & _ & _ & Hcomment).
  destruct (Hcomment 1 (Js.Num 5)) as [[_ Hthrows] _].
  split; [reflexivity|]. apply Hthrows. split; [reflexivity|]. intros s. discriminate.
Defined.


